(** * lz-solana-decode: peer-record address derivation and bytes32 extraction

    A shallow embedding of [src/index.ts] (the targeted / list resolver and
    its command-line parser) and of the two stand-alone scripts of the
    repository (the 1654-byte account enumerator and the bytes32 scanner),
    together with the properties the design document states about them. *)

From Stdlib Require Import ZArith Lia List Strings.String Strings.Ascii Strings.Byte Sorted Permutation.
From stdpp Require Import base option list strings gmap pretty sorting.

Local Open Scope string_scope.
Local Open Scope list_scope.

(** ** Bytes, buffers and their textual form *)

Module Bytes.

(** A [Buffer] / [Uint8Array] seen through its contents. *)
Abbreviation buffer := (list byte) (only parsing).

#[global] Instance byte_eq_decision : EqDecision byte := Byte.byte_eq_dec.

(** [b === 0] *)
Definition is_zero (b : byte) : bool := Byte.eqb b x00.

(** [Buffer.subarray(s, e)] and [Uint8Array.slice(s, e)] for indices that
    are not negative: both ends are clamped to the length. *)
Definition subarray (data : buffer) (s e : nat) : buffer :=
  take (e - s) (drop s data).

(** [subarray(s)] / [slice(s)] with the end left out. *)
Definition subarray_from (data : buffer) (s : nat) : buffer := drop s data.

(** [arr.every((b) => b === 0)] *)
Definition every_zero (s : buffer) : bool := forallb is_zero s.

Definition hex_digit (n : N) : ascii :=
  match n with
  | 0 => "0" | 1 => "1" | 2 => "2" | 3 => "3" | 4 => "4" | 5 => "5"
  | 6 => "6" | 7 => "7" | 8 => "8" | 9 => "9" | 10 => "a" | 11 => "b"
  | 12 => "c" | 13 => "d" | 14 => "e" | _ => "f"
  end%N%char.

Definition byte_hex (b : byte) : string :=
  let n := Byte.to_N b in
  String (hex_digit (n / 16)) (String (hex_digit (n mod 16)) EmptyString).

(** [Buffer.from(u).toString("hex")] *)
Fixpoint to_hex (u : buffer) : string :=
  match u with
  | [] => EmptyString
  | b :: rest => byte_hex b +:+ to_hex rest
  end.

(** [const hex = (u) => "0x" + Buffer.from(u).toString("hex")] *)
Definition hex (u : buffer) : string := "0x" +:+ to_hex u.

(** [const bytes32ToEvm = (b32) => "0x" + Buffer.from(b32.slice(12)).toString("hex")] *)
Definition bytes32ToEvm (b32 : buffer) : string :=
  "0x" +:+ to_hex (subarray_from b32 12).

Definition zeros (n : nat) : buffer := repeat x00 n.

(** Reading two hex digits back, to show that the text fixes the byte. *)
Definition unhex_digit (c : ascii) : option N :=
  find (fun n => Ascii.eqb (hex_digit n) c)
    [0; 1; 2; 3; 4; 5; 6; 7; 8; 9; 10; 11; 12; 13; 14; 15]%N.

Definition unhex_byte (c1 c2 : ascii) : option byte :=
  match unhex_digit c1, unhex_digit c2 with
  | Some h, Some l => Byte.of_N (16 * h + l)
  | _, _ => None
  end.

Definition byte_of_Z (z : Z) : byte :=
  match Byte.of_N (Z.to_N (z mod 256)) with
  | Some b => b
  | None => x00
  end.

End Bytes.
Import Bytes.

(** ** The Peer Field Extractor *)

Module Extractor.

(** One 32-byte window of [data] starting at [off]. *)
Definition window (data : buffer) (off : nat) : buffer :=
  subarray data off (off + 32).

(** The offsets visited by [for (let off = 0; off + 32 <= data.length; off++)]. *)
Definition offsets (data : buffer) : list nat :=
  seq 0 (length data + 1 - 32).

(** *** index.ts: single best candidate *)

Definition window_matches (s : buffer) : bool :=
  let headZeros := every_zero (subarray s 0 12) in
  let tailAllZero := every_zero (subarray_from s 12) in
  headZeros && negb tailAllZero.

Fixpoint extract_from (data : buffer) (offs : list nat) : option buffer :=
  match offs with
  | [] => None
  | off :: rest =>
      let s := window data off in
      if window_matches s then Some s else extract_from data rest
  end.

Definition extractPeerBytes32 (data : buffer) : option buffer :=
  extract_from data (offsets data).

(** *** scanner script: every candidate, deduplicated *)

(** [slice32[i] !== 0]; an index past the end reads [undefined], which is
    not [0]. *)
Definition nonzero_at (s : buffer) (i : nat) : bool :=
  match s !! i with
  | Some b => negb (is_zero b)
  | None => true
  end.

Definition looksLikeBytes32EvmAddress (slice32 : buffer) : bool :=
  if negb (length slice32 =? 32)%nat then false
  else if existsb (nonzero_at slice32) (seq 0 12) then false
  else
    let allZero := negb (existsb (nonzero_at slice32) (seq 12 20)) in
    negb allZero.

Record candidate := mkCandidate { off : nat; b32 : string; evm : string }.

(** One iteration of the loop body of [extractAllEvmPeers]. *)
Definition scan_step (data : buffer) (out : list candidate) (o : nat)
  : list candidate :=
  let s := window data o in
  if looksLikeBytes32EvmAddress s then
    let b := hex s in
    let e := bytes32ToEvm s in
    match find (fun x => String.eqb (evm x) e) out with
    | Some _ => out
    | None => out ++ [mkCandidate o b e]
    end
  else out.

Definition extractAllEvmPeers (data : buffer) : list candidate :=
  fold_left (scan_step data) (offsets data) [].

(** *** A closed description of the scan, used to state its properties *)

Definition candidate_at (data : buffer) (o : nat) : candidate :=
  mkCandidate o (hex (window data o)) (bytes32ToEvm (window data o)).

(** [o] carries a padded address. *)
Definition hit (data : buffer) (o : nat) : bool :=
  looksLikeBytes32EvmAddress (window data o).

(** [o] and [o'] carry the same decoded address. *)
Definition same_evm (data : buffer) (o o' : nat) : bool :=
  String.eqb (bytes32ToEvm (window data o')) (bytes32ToEvm (window data o)).

(** [o] carries a padded address that no lower offset carries. *)
Definition first_occurrence (data : buffer) (o : nat) : bool :=
  hit data o
  && negb (existsb (fun o' => hit data o' && same_evm data o o') (seq 0 o)).

(** Windows that do not overlap and have at least 32 bytes between them:
    consecutive offsets are at least 64 apart. *)
Definition separated (offs : list nat) : Prop :=
  StronglySorted (fun a b => a + 64 <= b) offs.

End Extractor.
Import Extractor.


(** ** Effects: exceptions, process exit, RPC calls and console output *)

(** What a library call gives back: a value or a thrown exception (for an
    asynchronous call, a rejected promise). *)
Inductive result (A : Type) : Type :=
  | Ok (a : A)
  | Throw (e : string).
Arguments Ok {A} a.
Arguments Throw {A} e.

(** How a computation of the program ends; [Exit] is [process.exit(code)],
    which no [catch] intercepts. *)
Inductive outcome (A : Type) : Type :=
  | Return (a : A)
  | Raise (e : string)
  | Exit (code : Z).
Arguments Return {A} a.
Arguments Raise {A} e.
Arguments Exit {A} code.

Definition of_result {A} (r : result A) : outcome A :=
  match r with
  | Ok a => Return a
  | Throw e => Raise e
  end.

Inductive Endian := LE | BE.

Inductive stream := Stdout | Stderr.

(** The part of [@solana/web3.js] the program relies on.  [PublicKey] is
    kept abstract; [findProgramAddressSync] returns the address and its
    bump, or throws when no bump is found. *)
Class Web3 := {
  PublicKey : Type;
  PublicKey_eq_dec :: EqDecision PublicKey;
  toBuffer : PublicKey -> buffer;
  toBase58 : PublicKey -> string;
  findProgramAddressSync : list buffer -> PublicKey -> result (PublicKey * Z);
  (* [new PublicKey(s)] throws on a string that is not a base58 key *)
  PublicKey_new : string -> result PublicKey;
}.

Record AccountInfo `{Web3} := mkAccountInfo {
  data : buffer;
  owner : PublicKey;
}.
Arguments mkAccountInfo {_} _ _.

(** A [Connection]: what the ledger answers to the two RPC calls used. *)
Class Connection `{Web3} := {
  getAccountInfo : PublicKey -> result (option AccountInfo);
  getProgramAccounts : PublicKey -> result (list (PublicKey * AccountInfo));
}.

(** Builtins of the JavaScript runtime that are taken as given.
    [parseInt10 s] is [parseInt(s, 10)] when that is a finite number and
    [None] when it is [NaN] or infinite (both uses discard those through
    [Number.isFinite]). *)
Class Runtime := {
  parseInt10 : string -> option Z;
  trim : string -> string;
}.

Section Effects.
Context `{W : Web3}.

Inductive rpc_call :=
  | GetAccountInfo (pk : PublicKey)
  | GetProgramAccounts (pk : PublicKey).

Record world := mkWorld {
  calls : list rpc_call;
  console : list (stream * string);
}.

Definition M (A : Type) : Type := world -> outcome A * world.

Definition ret {A} (a : A) : M A := fun w => (Return a, w).

Definition bind {A B} (m : M A) (k : A -> M B) : M B :=
  fun w =>
    match m w with
    | (Return a, w') => k a w'
    | (Raise e, w') => (Raise e, w')
    | (Exit c, w') => (Exit c, w')
    end.

(** A computation without effects that may throw. *)
Definition lift {A} (r : result A) : M A := fun w => (of_result r, w).

(** [try { body } catch { handler }]: an exit is not an exception. *)
Definition try_catch {A} (body : M A) (handler : string -> M A) : M A :=
  fun w =>
    match body w with
    | (Raise e, w') => handler e w'
    | other => other
    end.

Definition console_log (line : string) : M unit :=
  fun w => (Return tt, mkWorld (calls w) (console w ++ [(Stdout, line)])).

Definition console_error (line : string) : M unit :=
  fun w => (Return tt, mkWorld (calls w) (console w ++ [(Stderr, line)])).

Definition process_exit {A} (code : Z) : M A := fun w => (Exit code, w).

(** The world after the RPC calls [cs] have been made. *)
Definition logged (w : world) (cs : list rpc_call) : world :=
  mkWorld (calls w ++ cs) (console w).

Context `{C : !Connection}.

Definition conn_getAccountInfo (pk : PublicKey) : M (option AccountInfo) :=
  fun w =>
    (of_result (getAccountInfo pk),
     mkWorld (calls w ++ [GetAccountInfo pk]) (console w)).

Definition conn_getProgramAccounts (pk : PublicKey)
  : M (list (PublicKey * AccountInfo)) :=
  fun w =>
    (of_result (getProgramAccounts pk),
     mkWorld (calls w ++ [GetProgramAccounts pk]) (console w)).

End Effects.

Notation "'let*' x ':=' m 'in' k" := (bind m (fun x => k))
  (at level 10, x name, m at level 100, k at level 200).
Notation "m ';;' k" := (bind m (fun _ => k))
  (at level 100, k at level 200, right associativity).

Definition empty_world `{Web3} : world := mkWorld [] [].

(** One [console.log] per line, in order. *)
Fixpoint log_all `{Web3} (lines : list string) : M unit :=
  match lines with
  | [] => ret tt
  | l :: rest => console_log l ;; log_all rest
  end.

(** Sequencing of computations that only throw. *)
Definition rbind {A B} (r : result A) (k : A -> result B) : result B :=
  match r with
  | Ok a => k a
  | Throw e => Throw e
  end.

Notation "'let?' x ':=' r 'in' k" := (rbind r (fun x => k))
  (at level 10, x name, r at level 100, k at level 200).

(** ** Helpers shared by the three programs *)

Section Common.
Context `{W : Web3}.

(** [Buffer.alloc(4); b.writeUInt32LE(n)]: a value outside the unsigned
    32-bit range is rejected with a [RangeError]. *)
Definition u32_in_range (n : Z) : bool := ((0 <=? n) && (n <=? 4294967295))%Z.

Definition u32LE (n : Z) : result buffer :=
  if u32_in_range n then
    Ok [byte_of_Z n; byte_of_Z (Z.shiftr n 8);
        byte_of_Z (Z.shiftr n 16); byte_of_Z (Z.shiftr n 24)]
  else Throw "ERR_OUT_OF_RANGE".

Definition u32BE (n : Z) : result buffer :=
  if u32_in_range n then
    Ok [byte_of_Z (Z.shiftr n 24); byte_of_Z (Z.shiftr n 16);
        byte_of_Z (Z.shiftr n 8); byte_of_Z n]
  else Throw "ERR_OUT_OF_RANGE".

(** [Buffer.from(s)] for an ASCII label. *)
Definition Buffer_from (s : string) : buffer := list_byte_of_string s.

Definition deriveStorePda (programId : PublicKey) : result PublicKey :=
  let? r := findProgramAddressSync [Buffer_from "Store"] programId in
  Ok (fst r).

(** The address derived from the seeds ["Peer", store, seedEid]. *)
Definition peer_address (programId store : PublicKey) (seedEid : result buffer)
  : result PublicKey :=
  let? seed := seedEid in
  let? r := findProgramAddressSync
              [Buffer_from "Peer"; toBuffer store; seed] programId in
  Ok (fst r).

(** [peerPdaFor] of the enumerating script. *)
Definition peerPdaFor (programId store : PublicKey) (eid : Z) (endian : Endian)
  : result PublicKey :=
  let seedEid := match endian with LE => u32LE eid | BE => u32BE eid end in
  peer_address programId store seedEid.

Definition show_endian (e : option Endian) : string :=
  match e with
  | Some LE => "LE"
  | Some BE => "BE"
  | None => "null"
  end.

Definition show_bool (b : bool) : string := if b then "true" else "false".

Definition show_nullable (s : option string) : string :=
  match s with Some x => x | None => "null" end.

(** [arr.sort((a, b) => a.eid - b.eid)]: a stable sort on an integer key. *)
Fixpoint insert_by {A} (key : A -> Z) (x : A) (l : list A) : list A :=
  match l with
  | [] => [x]
  | y :: l' =>
      if (key x <=? key y)%Z then x :: y :: l' else y :: insert_by key x l'
  end.

Fixpoint sort_by {A} (key : A -> Z) (l : list A) : list A :=
  match l with
  | [] => []
  | x :: l' => insert_by key x (sort_by key l')
  end.

(** Ascending order on the key. *)
Definition key_le {A} (key : A -> Z) (x y : A) : Prop := (key x <= key y)%Z.

End Common.

(** ** src/index.ts *)

Module Index.

Module Args.
Record t := mk {
  rpc : string;
  program : string;
  eid : option Z;
  list : bool;
  eidlist : option string;
  json : bool;
}.
End Args.

(** What [derivePeerPda] resolves to. *)
Module Peer.
Record t `{Web3} := mk {
  pda : option PublicKey;
  ai : option AccountInfo;
  endian : option Endian;
}.
Arguments mk {_} _ _ _.
End Peer.

(** What [readOne] resolves to. *)
Module Row.
Record t := mk {
  eid : Z;
  peerPda : option string;
  exists_ : bool;
  endian : option Endian;
  bytes32 : option string;
  evm : option string;
}.
End Row.

Module SingleOut.
Record t := mk {
  rpc : string;
  programId : string;
  storePda : option string;
  storeExists : bool;
  storeOwner : option string;
  peer : Row.t;
}.
End SingleOut.

Module ListOut.
Record t := mk {
  rpc : string;
  programId : string;
  storePda : option string;
  storeExists : bool;
  storeOwner : option string;
  peersFound : nat;
  peers : list Row.t;
}.
End ListOut.

(** [s.startsWith(p)] *)
Definition startsWith (s p : string) : bool := String.prefix p s.

(** [s.slice(n)] for [0 <= n] *)
Fixpoint slice_from (n : nat) (s : string) : string :=
  match n, s with
  | S n', String _ s' => slice_from n' s'
  | _, _ => s
  end.

(** A string in a condition: only the empty string is falsy. *)
Definition truthy (s : string) : bool := negb (String.eqb s EmptyString).

(** The loop of [parseArgs]; the argument list is what is left of [a]
    from index [i] on, [m] is the map collected so far. *)
Fixpoint collect (a : list string) (m : gmap string string)
  : gmap string string :=
  match a with
  | [] => m
  | arg :: rest =>
      if negb (startsWith arg "--") then collect rest m
      else
        let key := slice_from 2 arg in
        match rest with
        | next :: rest' =>
            if truthy next && negb (startsWith next "--")
            then collect rest' (<[key := next]> m)
            else collect rest (<[key := "true"]> m)
        | [] => collect rest (<[key := "true"]> m)
        end
  end.

(** The value the loop stores for an option token followed by [post]. *)
Definition option_value (post : list string) : string :=
  match post with
  | next :: _ =>
      if truthy next && negb (startsWith next "--") then next else "true"
  | [] => "true"
  end.

Definition dquote : string := String (ascii_of_nat 34) EmptyString.

Definition USAGE : string :=
  "Usage: tsx src/index.ts --program <OFT_PROGRAM_ID> [--eid 30109] [--list] [--eidlist "
  +:+ dquote +:+ "30109,30168,..." +:+ dquote +:+ "] [--rpc <URL>] [--json]".

Definition DEFAULT_RPC : string := "https://api.mainnet-beta.solana.com".

Definition flag (m : gmap string string) (key : string) : bool :=
  String.eqb (default "false" (m !! key)) "true".

(** [s.split(",")] *)
Fixpoint split_on (c : ascii) (s : string) : list string :=
  match s with
  | EmptyString => [EmptyString]
  | String a s' =>
      match split_on c s' with
      | hd :: tl =>
          if Ascii.eqb a c then EmptyString :: hd :: tl else String a hd :: tl
      | [] => [String a EmptyString]
      end
  end.

Definition DEFAULT_EIDS : list Z :=
  [30101; 30102; 30106; 30109; 30110; 30111; 30145; 30168; 30184]%Z.

Section Program.
Context `{W : Web3} `{C : !Connection} `{R : Runtime}.

(** [process_argv] is the whole of [process.argv]. *)
Definition parseArgs (process_argv : list string) : M Args.t :=
  let a := drop 2 process_argv in
  let m := collect a ∅ in
  let program := default EmptyString (m !! "program") in
  let* _ := (if truthy program then ret tt
             else console_error USAGE ;; process_exit 1%Z) in
  let eidStr := m !! "eid" in
  let eid := match eidStr with Some s => parseInt10 s | None => None end in
  ret (Args.mk (default DEFAULT_RPC (m !! "rpc")) program eid
         (flag m "list") (m !! "eidlist") (flag m "json")).

Definition derivePeerPda (programId store : PublicKey) (eid : Z)
  : M Peer.t :=
  let* pLE := lift (peer_address programId store (u32LE eid)) in
  let* pBE := lift (peer_address programId store (u32BE eid)) in
  let* aiLE := conn_getAccountInfo pLE in
  match aiLE with
  | Some a => ret (Peer.mk (Some pLE) (Some a) (Some LE))
  | None =>
      let* aiBE := conn_getAccountInfo pBE in
      match aiBE with
      | Some a => ret (Peer.mk (Some pBE) (Some a) (Some BE))
      | None => ret (Peer.mk None None None)
      end
  end.

Definition readOne (programId storePda : PublicKey) (eid : Z) : M Row.t :=
  let* peer := derivePeerPda programId storePda eid in
  let peerB32 :=
    match Peer.ai peer with
    | Some a => extractPeerBytes32 (data a)
    | None => None
    end in
  let peerEvm := option_map bytes32ToEvm peerB32 in
  ret (Row.mk eid (option_map toBase58 (Peer.pda peer))
         (bool_decide (is_Some (Peer.ai peer))) (Peer.endian peer)
         (option_map hex peerB32) peerEvm).

(** The batch loop: [for (const eid of eids) { try { ... } catch { } }]. *)
Fixpoint collect_rows (programId storePda : PublicKey) (eids : list Z)
    (rows : list Row.t) : M (list Row.t) :=
  match eids with
  | [] => ret rows
  | eid :: rest =>
      let* rows' :=
        try_catch
          (let* r := readOne programId storePda eid in
           ret (if Row.exists_ r then rows ++ [r] else rows))
          (fun _ => ret rows) in
      collect_rows programId storePda rest rows'
  end.

(** The candidate identifiers of list mode. *)
Definition list_eids (args : Args.t) : list Z :=
  match Args.eidlist args with
  | Some s => omap (fun x => parseInt10 (trim x)) (split_on "," s)
  | None => DEFAULT_EIDS
  end.

Definition store_line (label : string) (storePda : option string)
    (storeExists : bool) (storeOwner : option string) : string :=
  label +:+ " " +:+ show_nullable storePda +:+ " exists = "
  +:+ show_bool storeExists +:+ " owner = " +:+ show_nullable storeOwner.

Definition peer_line (r : Row.t) : string :=
  " - EID=" +:+ pretty (Row.eid r) +:+ " (" +:+ show_endian (Row.endian r)
  +:+ ")  PDA=" +:+ show_nullable (Row.peerPda r)
  +:+ "  EVM=" +:+ show_nullable (Row.evm r)
  +:+ "  bytes32=" +:+ show_nullable (Row.bytes32 r).

(** [JSON.stringify(out, null, 2)] for the two report shapes. *)
Variable stringify_single : SingleOut.t -> string.
Variable stringify_list : ListOut.t -> string.

Definition print_single (json : bool) (out : SingleOut.t) : M unit :=
  if json then console_log (stringify_single out)
  else
    let row := SingleOut.peer out in
    log_all
      [ "RPC         : " +:+ SingleOut.rpc out;
        "Program     : " +:+ SingleOut.programId out;
        store_line "Store PDA   :" (SingleOut.storePda out)
          (SingleOut.storeExists out) (SingleOut.storeOwner out);
        "Peer EID=" +:+ pretty (Row.eid row)
          +:+ "  exists=" +:+ show_bool (Row.exists_ row)
          +:+ "  seed=" +:+ show_endian (Row.endian row)
          +:+ "  PDA=" +:+ show_nullable (Row.peerPda row);
        "peer(bytes32): " +:+ show_nullable (Row.bytes32 row);
        "peer(EVM)   : " +:+ show_nullable (Row.evm row) ].

Definition print_list (json : bool) (out : ListOut.t) : M unit :=
  if json then console_log (stringify_list out)
  else
    log_all
      ([ "RPC       : " +:+ ListOut.rpc out;
         "Program   : " +:+ ListOut.programId out;
         store_line "Store PDA :" (ListOut.storePda out)
           (ListOut.storeExists out) (ListOut.storeOwner out);
         "Peers     : " +:+ pretty (ListOut.peersFound out) ]
       ++ map peer_line (ListOut.peers out)).

(** The report of list mode, built from the rows the loop collected. *)
Definition list_out (args : Args.t) (programId storePda : PublicKey)
    (storeAi : option AccountInfo) (rows : list Row.t) : ListOut.t :=
  ListOut.mk (Args.rpc args) (toBase58 programId) (Some (toBase58 storePda))
    (bool_decide (is_Some storeAi))
    (option_map (fun a => toBase58 (owner a)) storeAi)
    (length rows) (sort_by Row.eid rows).

Definition main (process_argv : list string) : M unit :=
  let* args := parseArgs process_argv in
  let* programId := lift (PublicKey_new (Args.program args)) in
  let* storePda := lift (deriveStorePda programId) in
  let* storeAi := conn_getAccountInfo storePda in
  if negb (Args.list args) then
    let eid := default 30109%Z (Args.eid args) in
    let* row := readOne programId storePda eid in
    let out :=
      SingleOut.mk (Args.rpc args) (toBase58 programId)
        (Some (toBase58 storePda)) (bool_decide (is_Some storeAi))
        (option_map (fun a => toBase58 (owner a)) storeAi) row in
    print_single (Args.json args) out
  else
    let eids := list_eids args in
    let* rows := collect_rows programId storePda eids [] in
    print_list (Args.json args)
      (list_out args programId storePda storeAi rows).

(** [main().catch((e) => { console.error(e?.message || e); process.exit(1); })] *)
Definition run (process_argv : list string) : M unit :=
  try_catch (main process_argv)
    (fun e => console_error e ;; process_exit 1%Z).

End Program.

End Index.

(** ** The enumerating script: every 1654-byte account of the program *)

Module Enumerate.

Definition CANDIDATE_EIDS : list Z :=
  [30101; 30102; 30106; 30109; 30110; 30111; 30145; 30168; 30184]%Z.

(** The record length the script filters on. *)
Definition RECORD_LEN : nat := 1654.

Module Row.
Record t `{Web3} := mk {
  acc : PublicKey;
  dataLen : nat;
  peerBytes32 : string;
  peerEvm : string;
}.
Arguments mk {_} _ _ _ _.
End Row.

Module Resolved.
Record t := mk {
  eid : Z;
  endian : Endian;
  acc : string;
  peerEvm : string;
  peerBytes32 : string;
}.
End Resolved.

Section Program.
Context `{W : Web3} `{C : !Connection}.

(** [new PublicKey("YALAo...")], fixed when the script is loaded. *)
Variable PROGRAM_ID : PublicKey.

(** Step 2: [accs.filter(a => a.account.data.length === 1654)] *)
Definition candidates (accs : list (PublicKey * AccountInfo))
  : list (PublicKey * AccountInfo) :=
  filter (fun a => length (data (snd a)) = RECORD_LEN) accs.

(** Step 3: the peer is read at the fixed offset 8. *)
Definition to_row (a : PublicKey * AccountInfo) : Row.t :=
  let d := data (snd a) in
  let peerB32 := subarray d 8 (8 + 32) in
  let peerEvm := bytes32ToEvm peerB32 in
  Row.mk (fst a) (length d) (hex peerB32) peerEvm.

Definition entry_of (r : Row.t) (eid : Z) (endian : Endian) : Resolved.t :=
  Resolved.mk eid endian (toBase58 (Row.acc r)) (Row.peerEvm r)
    (Row.peerBytes32 r).

(** Step 4, inner loop: the first candidate identifier one of whose two
    addresses is the account's address. *)
Fixpoint attribute (storePda : PublicKey) (r : Row.t) (eids : list Z)
  : result (option Resolved.t) :=
  match eids with
  | [] => Ok None
  | eid :: rest =>
      let? pLE := peerPdaFor PROGRAM_ID storePda eid LE in
      let? pBE := peerPdaFor PROGRAM_ID storePda eid BE in
      if decide (pLE = Row.acc r) then Ok (Some (entry_of r eid LE))
      else if decide (pBE = Row.acc r) then Ok (Some (entry_of r eid BE))
      else attribute storePda r rest
  end.

(** Step 4, outer loop. *)
Fixpoint resolve (storePda : PublicKey) (rows : list Row.t)
    (resolved : list Resolved.t) : result (list Resolved.t) :=
  match rows with
  | [] => Ok resolved
  | r :: rest =>
      let? hit := attribute storePda r CANDIDATE_EIDS in
      match hit with
      | Some x => resolve storePda rest (resolved ++ [x])
      | None => resolve storePda rest (resolved ++ [entry_of r (-1)%Z LE])
      end
  end.

(** What the attribution loop establishes about the entry [x] it makes for
    the account at address [acc]: either no candidate identifier derives
    [acc] and the entry carries the marker -1, or the entry names a
    candidate identifier and a byte order that derive [acc]. *)
Definition attributed_to (storePda acc : PublicKey) (x : Resolved.t) : Prop :=
  (Resolved.eid x = (-1)%Z /\ Resolved.endian x = LE
   /\ forall eid e, In eid CANDIDATE_EIDS ->
         peerPdaFor PROGRAM_ID storePda eid e <> Ok acc)
  \/ (In (Resolved.eid x) CANDIDATE_EIDS
      /\ peerPdaFor PROGRAM_ID storePda (Resolved.eid x) (Resolved.endian x)
         = Ok acc).

(** What one entry records about the row it was made from. *)
Definition entry_for (storePda : PublicKey) (r : Row.t) (x : Resolved.t)
  : Prop :=
  Resolved.acc x = toBase58 (Row.acc r)
  /\ Resolved.peerEvm x = Row.peerEvm r
  /\ Resolved.peerBytes32 x = Row.peerBytes32 r
  /\ attributed_to storePda (Row.acc r) x.

Definition unattributed (x : Resolved.t) : bool :=
  (Resolved.eid x =? -1)%Z.

(** The order in which the entries are printed. *)
Definition report_order (resolved : list Resolved.t) : list Resolved.t :=
  sort_by Resolved.eid resolved.

Definition entry_line (x : Resolved.t) : string :=
  let tag :=
    if (Resolved.eid x =? -1)%Z then "UNKNOWN_EID"
    else pretty (Resolved.eid x) in
  " - EID=" +:+ tag +:+ " (" +:+ show_endian (Some (Resolved.endian x))
  +:+ ")  ACC=" +:+ Resolved.acc x +:+ "  PEER=" +:+ Resolved.peerEvm x
  +:+ "  B32=" +:+ Resolved.peerBytes32 x.

Definition newline : string := String (ascii_of_nat 10) EmptyString.

(** The three lines printed before the entries. *)
Definition header (storePda : PublicKey) (rows : list Row.t) : list string :=
  [ "Store PDA : " +:+ toBase58 storePda;
    "Accounts (len=1654) = " +:+ pretty (length rows);
    newline +:+ "EID → Peer map:" ].

Definition main : M unit :=
  let* storePda := lift (deriveStorePda PROGRAM_ID) in
  let* accs := conn_getProgramAccounts PROGRAM_ID in
  let cands := candidates accs in
  if (length cands =? 0)%nat then
    console_log
      "No 1654-byte accounts found; program may not be the expected OFT or layout differs."
  else
    let rows := map to_row cands in
    let* resolved := lift (resolve storePda rows []) in
    log_all (header storePda rows
             ++ map entry_line (report_order resolved)).

(** The script as it is started:
    [main().catch(e => { console.error(e?.stack || e?.message || e); process.exit(1); })].
    [error_text e] is the text the handler prints for the failure [e]: its
    stack trace, or its message when it has none. *)
Definition run (error_text : string -> string) : M unit :=
  try_catch main
    (fun e => console_error (error_text e) ;; process_exit 1%Z).

End Program.

End Enumerate.

(** ** The scanning script: every account of the program, grouped by
    discriminator and searched for padded addresses *)

Module Scanner.

Definition RPC : string := "https://api.mainnet-beta.solana.com".

(** [s.slice(-n)]: the last [n] characters, the whole string when it is
    shorter. *)
Definition slice_last (n : nat) (s : string) : string :=
  Index.slice_from (String.length s - n) s.

(** [const short = (s) => s.slice(0, 6) + "..." + s.slice(-6)] *)
Definition short (s : string) : string :=
  String.substring 0 6 s +:+ "..." +:+ slice_last 6 s.

(** [discriminatorOf]: the first 8 bytes as hex, [null] for a missing or
    shorter buffer. *)
Definition discriminatorOf (data : option (list byte)) : option string :=
  match data with
  | None => None
  | Some d =>
      if (length d <? 8)%nat then None else Some (hex (subarray d 0 8))
  end.

(** [groups.has(disc) || groups.set(disc, []); groups.get(disc).push(a)]
    on a [Map], whose entries keep the order in which keys were added. *)
Fixpoint push_group {X} (disc : string) (a : X)
    (groups : list (string * list X)) : list (string * list X) :=
  match groups with
  | [] => [(disc, [a])]
  | (k, l) :: rest =>
      if String.eqb k disc then (k, l ++ [a]) :: rest
      else (k, l) :: push_group disc a rest
  end.

(** [groups.get(k)] *)
Definition lookup_group {X} (k : string) (groups : list (string * list X))
  : option (list X) :=
  option_map snd (find (fun p => String.eqb (fst p) k) groups).

(** [new Set(xs)] as the array of its members, first occurrences in
    order. *)
Fixpoint set_of (xs : list nat) (seen : list nat) : list nat :=
  match xs with
  | [] => seen
  | x :: rest =>
      if existsb (Nat.eqb x) seen then set_of rest seen
      else set_of rest (seen ++ [x])
  end.

(** [String(n).padStart(5)] *)
Definition padStart5 (s : string) : string :=
  string_of_list_ascii (repeat " "%char (5 - String.length s)) +:+ s.

Module PeerRow.
Record t := mk {
  pubkey : string;
  dataLen : nat;
  disc : option string;
  peers : list candidate;
}.
End PeerRow.

Section Program.
Context `{W : Web3} `{C : !Connection}.

Variable PROGRAM_ID : PublicKey.

(** The label an account is grouped under. *)
Definition label (a : PublicKey * AccountInfo) : string :=
  default "no-disc" (discriminatorOf (Some (data (snd a)))).

Definition group_accounts (accs : list (PublicKey * AccountInfo))
  : list (string * list (PublicKey * AccountInfo)) :=
  fold_left (fun groups a => push_group (label a) a groups) accs [].

(** The distinct buffer lengths of a group, ascending. *)
Definition sizes_of (l : list (PublicKey * AccountInfo)) : list nat :=
  sort_by Z.of_nat (set_of (map (fun x => length (data (snd x))) l) []).

Definition group_line (g : string * list (PublicKey * AccountInfo))
  : string :=
  " - disc=" +:+ fst g +:+ "  count=" +:+ pretty (length (snd g))
  +:+ "  dataLens=" +:+ String.concat "," (map pretty (sizes_of (snd g))).

(** The loop that searches every account: accounts without a candidate
    are left out. *)
Fixpoint scan_accounts (accs : list (PublicKey * AccountInfo))
    (peerRows : list PeerRow.t) : list PeerRow.t :=
  match accs with
  | [] => peerRows
  | a :: rest =>
      let d := data (snd a) in
      let peers := extractAllEvmPeers d in
      if (0 <? length peers)%nat then
        scan_accounts rest
          (peerRows
           ++ [PeerRow.mk (toBase58 (fst a)) (length d)
                 (discriminatorOf (Some d))
                 (map (fun p => mkCandidate (off p) (b32 p) (evm p)) peers)])
      else scan_accounts rest peerRows
  end.

(** Some window of the account's buffer is a padded address. *)
Definition has_candidate (a : PublicKey * AccountInfo) : bool :=
  existsb (hit (data (snd a))) (offsets (data (snd a))).

(** The row the loop makes for an account that has a candidate. *)
Definition row_of (a : PublicKey * AccountInfo) : PeerRow.t :=
  PeerRow.mk (toBase58 (fst a)) (length (data (snd a)))
    (discriminatorOf (Some (data (snd a))))
    (extractAllEvmPeers (data (snd a))).

(** The opening lines, printed before the accounts are fetched. *)
Definition opening : list string :=
  [ "RPC      : " +:+ RPC;
    "Program  : " +:+ toBase58 PROGRAM_ID;
    "Fetching program accounts..." ].

Definition row_lines (row : PeerRow.t) : list string :=
  ("• " +:+ short (PeerRow.pubkey row) +:+ "  len="
   +:+ pretty (PeerRow.dataLen row) +:+ "  disc="
   +:+ show_nullable (PeerRow.disc row) +:+ "  peers="
   +:+ pretty (length (PeerRow.peers row)))
  :: map (fun p => "    - off=" +:+ padStart5 (pretty (off p)) +:+ "  evm="
                   +:+ evm p +:+ "  b32=" +:+ b32 p)
       (PeerRow.peers row).

(** The order in which the rows are printed. *)
Definition report_rows (peerRows : list PeerRow.t) : list PeerRow.t :=
  sort_by (fun r => Z.of_nat (PeerRow.dataLen r)) peerRows.

Definition peer_section (peerRows : list PeerRow.t) : list string :=
  if (length peerRows =? 0)%nat then
    ["No bytes32(EVM) patterns found in program-owned accounts."]
  else concat (map row_lines (report_rows peerRows)).

(** Everything printed once the accounts are there. *)
Definition report (accs : list (PublicKey * AccountInfo)) : list string :=
  [ "Total accounts owned by program: " +:+ pretty (length accs);
    Enumerate.newline +:+ "== Discriminator groups ==" ]
  ++ map group_line (group_accounts accs)
  ++ [ Enumerate.newline +:+ "== Candidate peers (bytes32(EVM) found) ==" ]
  ++ peer_section (scan_accounts accs []).

Definition main : M unit :=
  log_all [ "RPC      : " +:+ RPC;
            "Program  : " +:+ toBase58 PROGRAM_ID;
            "Fetching program accounts..." ] ;;
  let* accs := conn_getProgramAccounts PROGRAM_ID in
  console_log ("Total accounts owned by program: " +:+ pretty (length accs)) ;;
  let groups := group_accounts accs in
  console_log (Enumerate.newline +:+ "== Discriminator groups ==") ;;
  log_all (map group_line groups) ;;
  let peerRows := scan_accounts accs [] in
  console_log (Enumerate.newline
               +:+ "== Candidate peers (bytes32(EVM) found) ==") ;;
  log_all (peer_section peerRows).

End Program.

End Scanner.

(** ** The extractor over a store of array buffers

    [subarray] makes a view that shares the bytes of the buffer it is taken
    from, [new Uint8Array(view)] and [Buffer.from(view)] copy them into a
    fresh buffer.  The store maps allocation indices to buffer contents. *)

Module Mem.

Abbreviation heap := (list (list byte)) (only parsing).

Record view := mkView { buf : nat; byteOffset : nat; len : nat }.

(** The bytes a view shows. *)
Definition contents (h : heap) (v : view) : buffer :=
  take (len v) (drop (byteOffset v) (default [] (h !! buf v))).

(** [v.subarray(s, e)] (and [Buffer.prototype.slice]): a narrower view of
    the same buffer, both ends clamped. *)
Definition subarray (v : view) (s e : nat) : view :=
  let s' := s `min` len v in
  let e' := e `min` len v in
  mkView (buf v) (byteOffset v + s') (e' - s').

Definition subarray_from (v : view) (s : nat) : view := subarray v s (len v).

(** [v[i]] *)
Definition get (h : heap) (v : view) (i : nat) : option byte :=
  contents h v !! i.

Definition every_zero (h : heap) (v : view) : bool :=
  forallb is_zero (contents h v).

(** Allocation of a fresh buffer holding [bs]. *)
Definition alloc (h : heap) (bs : buffer) : heap * view :=
  (h ++ [bs], mkView (length h) 0 (length bs)).

(** [new Uint8Array(v)], [Buffer.from(v)] *)
Definition copy (h : heap) (v : view) : heap * view :=
  alloc h (contents h v).

(** [hex(u)]: [Buffer.from(u)] copies, [toString("hex")] reads the copy. *)
Definition hex (h : heap) (u : view) : heap * string :=
  let '(h1, c) := copy h u in
  (h1, "0x" +:+ to_hex (contents h1 c)).

(** [bytes32ToEvm(b32)]: the slice is a view, [Buffer.from] copies it. *)
Definition bytes32ToEvm (h : heap) (b32 : view) : heap * string :=
  let '(h1, c) := copy h (subarray_from b32 12) in
  (h1, "0x" +:+ to_hex (contents h1 c)).

Definition offsets (data : view) : list nat := seq 0 (len data + 1 - 32).

Fixpoint extract_from (h : heap) (data : view) (offs : list nat)
  : heap * option view :=
  match offs with
  | [] => (h, None)
  | off :: rest =>
      let s := subarray data off (off + 32) in
      let headZeros := every_zero h (subarray s 0 12) in
      let tailAllZero := every_zero h (subarray_from s 12) in
      if headZeros && negb tailAllZero then
        let '(h1, r) := copy h s in (h1, Some r)
      else extract_from h data rest
  end.

Definition extractPeerBytes32 (h : heap) (data : view) : heap * option view :=
  extract_from h data (offsets data).

Definition nonzero_at (h : heap) (s : view) (i : nat) : bool :=
  match get h s i with
  | Some b => negb (is_zero b)
  | None => true
  end.

Definition looksLikeBytes32EvmAddress (h : heap) (slice32 : view) : bool :=
  if negb (len slice32 =? 32)%nat then false
  else if existsb (nonzero_at h slice32) (seq 0 12) then false
  else
    let allZero := negb (existsb (nonzero_at h slice32) (seq 12 20)) in
    negb allZero.

Definition scan_step (data : view) (st : heap * list candidate) (o : nat)
  : heap * list candidate :=
  let '(h, out) := st in
  let s := subarray data o (o + 32) in
  if looksLikeBytes32EvmAddress h s then
    let '(h1, b) := hex h s in
    let '(h2, e) := bytes32ToEvm h1 s in
    match find (fun x => String.eqb (evm x) e) out with
    | Some _ => (h2, out)
    | None => (h2, out ++ [mkCandidate o b e])
    end
  else (h, out).

Definition extractAllEvmPeers (h : heap) (data : view)
  : heap * list candidate :=
  fold_left (scan_step data) (offsets data) (h, []).

(** A view that lies inside an allocated buffer of the store. *)
Definition valid (h : heap) (v : view) : Prop :=
  exists bs, h !! buf v = Some bs /\ byteOffset v + len v <= length bs.

End Mem.

(** ** A small concrete world for worked examples *)

Module Sample.

(** A stand-in for the derivation primitive: the last 32 bytes of the
    program identifier followed by the seeds.  It is deterministic and
    keeps the numeric seed apart, which is all the examples need. *)
Definition last32 (l : buffer) : buffer := drop (length l - 32) l.

(** The same, with a key constructor that rejects a text longer than a
    base58 key can be. *)
#[local] Instance picky_web3 : Web3 := {|
  PublicKey := list byte;
  toBuffer := fun pk => pk;
  toBase58 := fun pk => to_hex pk;
  findProgramAddressSync :=
    fun seeds programId =>
      Ok (drop (length (programId ++ concat seeds) - 32)
            (programId ++ concat seeds), 255%Z);
  PublicKey_new := fun s =>
    if (44 <? String.length s)%nat then Throw "Invalid public key input"
    else Ok (list_byte_of_string s);
|}.

#[local] Instance web3 : Web3 := {|
  PublicKey := buffer;
  toBuffer := fun pk => pk;
  toBase58 := fun pk => to_hex pk;
  findProgramAddressSync :=
    fun seeds programId => Ok (last32 (programId ++ concat seeds), 255%Z);
  PublicKey_new := fun s => Ok (list_byte_of_string s);
|}.

Definition programId : PublicKey := repeat x07 32.

Definition storePda : PublicKey := repeat x07 27 ++ Buffer_from "Store".

(** The two peer addresses of identifier 30109 (0x0000759d). *)
Definition peerLE : PublicKey :=
  drop 4 storePda ++ [x9d; x75; x00; x00].
Definition peerBE : PublicKey :=
  drop 4 storePda ++ [x00; x00; x75; x9d].

(** An address no candidate identifier derives. *)
Definition stray : PublicKey := repeat xee 32.

(** A ledger given by the accounts it holds; fetching [broken] fails. *)
Definition ledger (accts : list (PublicKey * AccountInfo))
    (broken : list PublicKey) : Connection := {|
  getAccountInfo := fun pk =>
    if bool_decide (pk ∈ broken) then Throw "fetch failed"
    else Ok (snd <$> find (fun a => bool_decide (fst a = pk)) accts);
  getProgramAccounts := fun _ => Ok accts;
|}.

(** A peer record of the tracked length: an 8-byte discriminator, the
    bytes32 peer at offset 8, then filler. *)
Definition record (tail : buffer) : buffer :=
  repeat xd1 8 ++ zeros 12 ++ tail ++ repeat x01 (1654 - 40).

(** A record of the tracked length in which no window is a padded address. *)
Definition blank_record : buffer := repeat x01 1654.

Definition ab20 : buffer := repeat xab 20.

Definition account (d : buffer) : AccountInfo := mkAccountInfo d programId.

(** A record with nothing at offset 8 and a padded address at offset 100. *)
Definition shifted_record : buffer :=
  repeat x01 100 ++ zeros 12 ++ ab20 ++ repeat x01 (1654 - 132).

(** Two identical padded addresses separated by 32 bytes of [0xff]. *)
Definition twin_windows : buffer :=
  (zeros 12 ++ ab20) ++ repeat xff 32 ++ (zeros 12 ++ ab20).

(** A stand-in for the runtime on plain ASCII input: [parseInt10] reads an
    optional sign and the leading decimal digits after leading blanks,
    [trim] removes blanks at both ends. *)
Definition is_blank (c : ascii) : bool := Ascii.eqb c " "%char.

Definition digit_of (c : ascii) : option Z :=
  let n := Z.of_nat (nat_of_ascii c) in
  if ((48 <=? n) && (n <=? 57))%Z then Some (n - 48)%Z else None.

Fixpoint skip_blanks (s : string) : string :=
  match s with
  | String c s' => if is_blank c then skip_blanks s' else s
  | EmptyString => s
  end.

Fixpoint read_digits (s : string) (acc : option Z) : option Z :=
  match s with
  | String c s' =>
      match digit_of c with
      | Some d => read_digits s' (Some (10 * default 0%Z acc + d)%Z)
      | None => acc
      end
  | EmptyString => acc
  end.

Definition sample_parseInt10 (s : string) : option Z :=
  match skip_blanks s with
  | String "-" s' => Z.opp <$> read_digits s' None
  | String "+" s' => read_digits s' None
  | s' => read_digits s' None
  end.

Definition sample_trim (s : string) : string :=
  String.rev (skip_blanks (String.rev (skip_blanks s))).

#[local] Instance runtime : Runtime := {|
  parseInt10 := sample_parseInt10;
  trim := sample_trim;
|}.

(** The two peer addresses of identifier 30110 (0x0000759e). *)
Definition peerLE_30110 : PublicKey :=
  drop 4 storePda ++ [x9e; x75; x00; x00].
Definition peerBE_30110 : PublicKey :=
  drop 4 storePda ++ [x00; x00; x75; x9e].

(** Ledgers: a record at both addresses of 30109, at the first one only,
    a blank record at the second one, nothing at all; and one on which
    fetching the first address of 30109 fails while 30110 has a record. *)
Definition both_peers : Connection :=
  ledger [(peerLE, account (record ab20));
          (peerBE, account (record (repeat xcd 20)))] [].
Definition le_only : Connection :=
  ledger [(peerLE, account (record ab20))] [].
Definition be_blank : Connection :=
  ledger [(peerBE, account blank_record)] [].
Definition no_peers : Connection := ledger [] [].
Definition flaky : Connection :=
  ledger [(peerBE_30110, account (record ab20))] [peerLE].

(** A program owning one record at an address of 30109 and one record at
    an address no candidate identifier derives. *)
Definition mixed_accounts : list (PublicKey * AccountInfo) :=
  [(peerBE, account (record ab20));
   (stray, account (record (repeat xcd 20)))].
Definition mixed : Connection := ledger mixed_accounts [].

(** The world of a command line that names the program [P]: its key, its
    store address, the first peer address of 30109, and a ledger on which
    fetching that address fails. *)
Definition cli_program : PublicKey := list_byte_of_string "P".
Definition cli_store : PublicKey := last32 (cli_program ++ Buffer_from "Store").
Definition cli_peerLE : PublicKey :=
  last32 (cli_program ++ Buffer_from "Peer" ++ cli_store
          ++ [x9d; x75; x00; x00]).
Definition cli_peerBE : PublicKey :=
  last32 (cli_program ++ Buffer_from "Peer" ++ cli_store
          ++ [x00; x00; x75; x9d]).
Definition cli_flaky : Connection := ledger [] [cli_peerLE].

(** Command lines: list mode, targeted mode, and a program text too long
    to be a key. *)
Definition list_argv : list string :=
  ["node"; "src/index.ts"; "--program"; "P"; "--list"].
Definition single_argv : list string :=
  ["node"; "src/index.ts"; "--program"; "P"].
Definition long_argv : list string :=
  ["node"; "src/index.ts"; "--program";
   "PPPPPPPPPPPPPPPPPPPPPPPPPPPPPPPPPPPPPPPPPPPPPPPPPP"].

(** A ledger for the picky key constructor, holding nothing. *)
Definition picky_ledger : @Connection picky_web3 := {|
  getAccountInfo := fun _ => Ok None;
  getProgramAccounts := fun _ => Ok [];
|}.

(** A derivation primitive that finds no address for a peer record (three
    seeds), and a ledger for it that owns one record of the tracked
    length. *)
Definition brittle_web3 : Web3 := {|
  PublicKey := list byte;
  toBuffer := fun pk => pk;
  toBase58 := fun pk => to_hex pk;
  findProgramAddressSync :=
    fun seeds programId =>
      if (length seeds =? 3)%nat
      then Throw "Unable to find a viable program address nonce"
      else Ok (drop (length (programId ++ concat seeds) - 32)
                 (programId ++ concat seeds), 255%Z);
  PublicKey_new := fun s => Ok (list_byte_of_string s);
|}.

Definition brittle_accounts
  : list (@PublicKey brittle_web3 * @AccountInfo brittle_web3) :=
  [(repeat xee 32, @mkAccountInfo brittle_web3 (repeat x01 1654)
                     (repeat x07 32))].

Definition brittle_ledger : @Connection brittle_web3 := {|
  getAccountInfo := fun _ => Ok None;
  getProgramAccounts := fun _ => Ok brittle_accounts;
|}.

(** A program that owns only short accounts. *)
Definition short_accounts : list (PublicKey * AccountInfo) :=
  [(stray, account (repeat x01 40)); (peerLE, account [])].
Definition short_only : Connection := ledger short_accounts [].

(** A report renderer that prints nothing, where the text is of no
    interest. *)
Definition no_text {X} (_ : X) : string := EmptyString.

(** Two different padded addresses separated by 32 bytes of [0xff]. *)
Definition two_windows : buffer :=
  (zeros 12 ++ ab20) ++ repeat xff 32 ++ (zeros 12 ++ repeat xcd 20).

End Sample.

(** ** Reading the encodings back

    Used to state what the encoders keep: the number a 4-byte seed stands
    for, least significant byte first. *)

Module Decode.

Definition byte_value (b : byte) : Z := Z.of_N (Byte.to_N b).

Fixpoint le_value (bs : list byte) : Z :=
  match bs with
  | [] => 0
  | b :: rest => byte_value b + 256 * le_value rest
  end.

(** The text of the zero address and of the padding of a bytes32 slot. *)
Definition ZERO_EVM : string := "0x" +:+ to_hex (zeros 20).
Definition PADDING : string := "0x" +:+ to_hex (zeros 12).

End Decode.

(** * Properties *)

(** ** Hex text determines the bytes *)

Section HexFacts.

Lemma byte_hex_shape (b : byte) :
  exists c1 c2, byte_hex b = String c1 (String c2 EmptyString)
                /\ unhex_byte c1 c2 = Some b.
Proof.
  eexists _, _. split; [reflexivity|].
  destruct b; vm_compute; reflexivity.
Qed.

Lemma to_hex_inj (u v : buffer) : to_hex u = to_hex v -> u = v.
Proof.
  revert v. induction u as [|a u IH]; intros [|b v] H; simpl in H.
  - reflexivity.
  - destruct (byte_hex_shape b) as (c1 & c2 & E & _). rewrite E in H. discriminate.
  - destruct (byte_hex_shape a) as (c1 & c2 & E & _). rewrite E in H. discriminate.
  - destruct (byte_hex_shape a) as (c1 & c2 & Ea & Ua).
    destruct (byte_hex_shape b) as (d1 & d2 & Eb & Ub).
    rewrite Ea, Eb in H. simpl in H. injection H as -> -> H.
    rewrite Ua in Ub. injection Ub as ->. f_equal. by apply IH.
Qed.

Lemma bytes32ToEvm_inj (s t : buffer) :
  bytes32ToEvm s = bytes32ToEvm t <-> drop 12 s = drop 12 t.
Proof.
  unfold bytes32ToEvm, subarray_from. split.
  - intros H. simpl in H. injection H as H. by apply to_hex_inj.
  - by intros ->.
Qed.

End HexFacts.

(** ** The sliding-window scan *)

Section ScanFacts.

Lemma window_length (data : buffer) (o : nat) :
  o + 32 <= length data -> length (window data o) = 32.
Proof.
  intros H. unfold window, subarray.
  rewrite length_take, length_drop. lia.
Qed.

Lemma offsets_spec (data : buffer) (o : nat) :
  In o (offsets data) <-> o + 32 <= length data.
Proof. unfold offsets. rewrite in_seq. lia. Qed.

Lemma existsb_nonzero_at (s : buffer) (a n : nat) :
  a + n <= length s ->
  existsb (nonzero_at s) (seq a n) = negb (every_zero (take n (drop a s))).
Proof.
  revert a. induction n as [|n IH]; intros a H; [reflexivity|].
  destruct (lookup_lt_is_Some_2 s a ltac:(lia)) as [b Hb].
  rewrite (drop_S _ _ _ Hb). cbn [seq existsb take every_zero forallb].
  fold (every_zero (take n (drop (S a) s))).
  rewrite IH by lia. unfold nonzero_at. rewrite Hb.
  by destruct (is_zero b), (every_zero (take n (drop (S a) s))).
Qed.

(** On a 32-byte slice the two predicates of the repository agree. *)
Lemma looksLike_window_matches (s : buffer) :
  length s = 32 -> looksLikeBytes32EvmAddress s = window_matches s.
Proof.
  intros H. unfold looksLikeBytes32EvmAddress, window_matches.
  rewrite H. cbn [Nat.eqb negb].
  rewrite !existsb_nonzero_at by lia.
  unfold subarray, subarray_from. rewrite drop_0.
  replace (take 20 (drop 12 s)) with (drop 12 s)
    by (symmetry; apply take_ge; rewrite length_drop; lia).
  cbn [Nat.sub]. by destruct (every_zero (take 12 s)), (every_zero (drop 12 s)).
Qed.

Lemma looksLike_length (s : buffer) :
  looksLikeBytes32EvmAddress s = true -> length s = 32.
Proof.
  unfold looksLikeBytes32EvmAddress.
  destruct (Nat.eqb_spec (length s) 32); [done | discriminate].
Qed.

Lemma hit_in_range (data : buffer) (o : nat) :
  hit data o = true -> o + 32 <= length data.
Proof.
  intros H. apply looksLike_length in H.
  unfold window, subarray in H. rewrite length_take, length_drop in H. lia.
Qed.

Lemma same_evm_spec (data : buffer) (o o' : nat) :
  same_evm data o o' = true
  <-> drop 12 (window data o') = drop 12 (window data o).
Proof.
  unfold same_evm. rewrite String.eqb_eq. apply bytes32ToEvm_inj.
Qed.

(** Every padded address has a first occurrence at or below it. *)
Lemma first_occurrence_below (data : buffer) (o : nat) :
  hit data o = true ->
  exists o', o' <= o /\ first_occurrence data o' = true
             /\ same_evm data o o' = true.
Proof.
  induction o as [o IH] using lt_wf_ind. intros Ho.
  destruct (existsb (fun o' => hit data o' && same_evm data o o') (seq 0 o))
    eqn:E.
  - apply existsb_exists in E as (o1 & Hin & H1).
    apply in_seq in Hin. apply andb_true_iff in H1 as [Hh Hs].
    destruct (IH o1 ltac:(lia) Hh) as (o' & Hle & Hf & Hs').
    exists o'. split; [lia|]. split; [done|].
    apply same_evm_spec. apply same_evm_spec in Hs, Hs'. congruence.
  - exists o. split; [lia|]. split.
    + unfold first_occurrence. by rewrite Ho, E.
    + apply same_evm_spec. reflexivity.
Qed.

Lemma scan_prefix (data : buffer) (n : nat) :
  fold_left (scan_step data) (seq 0 n) []
  = map (candidate_at data) (List.filter (first_occurrence data) (seq 0 n)).
Proof.
  induction n as [|n IH]; [reflexivity|].
  rewrite seq_S, fold_left_app, List.filter_app, map_app, IH.
  cbn [fold_left List.filter Nat.add]. unfold scan_step.
  change (looksLikeBytes32EvmAddress (window data n)) with (hit data n).
  assert (first_occurrence data n
          = hit data n
            && negb (existsb (fun o' => hit data o' && same_evm data n o')
                       (seq 0 n))) as -> by reflexivity.
  destruct (hit data n) eqn:Hn; cbn [andb]; [|by rewrite app_nil_r].
  set (out := map _ _).
  destruct (find _ out) as [c|] eqn:Hf.
  - apply find_some in Hf as [Hin Hc]. subst out.
    apply in_map_iff in Hin as (o' & <- & Hin).
    apply filter_In in Hin as [Hin Hfo]. cbn [evm candidate_at] in Hc.
    assert (existsb (fun o' => hit data o' && same_evm data n o') (seq 0 n)
            = true) as ->.
    { apply existsb_exists. exists o'. split; [done|].
      unfold first_occurrence in Hfo. apply andb_true_iff in Hfo as [-> _].
      exact Hc. }
    by rewrite app_nil_r.
  - assert (existsb (fun o' => hit data o' && same_evm data n o') (seq 0 n)
            = false) as ->; [|done].
    apply not_true_is_false. intros E.
    apply existsb_exists in E as (o1 & Hin & H1). apply in_seq in Hin.
    apply andb_true_iff in H1 as [Hh Hs].
    destruct (first_occurrence_below data o1 Hh) as (o' & Hle & Hfo & Hs').
    assert (In (candidate_at data o') out) as Hin'.
    { apply in_map, filter_In. split; [apply in_seq; lia | done]. }
    pose proof (find_none _ _ Hf _ Hin') as Hno. cbn [evm candidate_at] in Hno.
    apply same_evm_spec in Hs, Hs'.
    assert (bytes32ToEvm (window data o') = bytes32ToEvm (window data n)) as E
      by (apply bytes32ToEvm_inj; congruence).
    rewrite E, String.eqb_refl in Hno. discriminate.
Qed.

(** The scan keeps, in ascending order, the first occurrence of every
    decoded address. *)
Lemma extractAllEvmPeers_spec (data : buffer) :
  extractAllEvmPeers data
  = map (candidate_at data)
      (List.filter (first_occurrence data) (offsets data)).
Proof. apply scan_prefix. Qed.

End ScanFacts.

Section SortedFacts.

Lemma StronglySorted_lt_seq (a n : nat) : StronglySorted lt (seq a n).
Proof.
  revert a. induction n as [|n IH]; intros a; cbn [seq]; constructor.
  - apply IH.
  - apply Forall_forall. intros x Hx%list_elem_of_In%in_seq. lia.
Qed.

Lemma StronglySorted_filter {A} (R : A -> A -> Prop) (p : A -> bool) l :
  StronglySorted R l -> StronglySorted R (List.filter p l).
Proof.
  induction 1 as [|x l Hs IH Hx]; cbn [List.filter]; [constructor|].
  destruct (p x); [|done]. constructor; [done|].
  apply Forall_forall. intros y Hy%list_elem_of_In%filter_In.
  rewrite Forall_forall in Hx. apply Hx, list_elem_of_In, Hy.
Qed.

Lemma StronglySorted_lt_NoDup (l : list nat) : StronglySorted lt l -> NoDup l.
Proof.
  induction 1 as [|x l Hs IH Hx]; constructor; [|done].
  intros Hin. rewrite Forall_forall in Hx. specialize (Hx _ Hin). lia.
Qed.

(** Two strictly ascending lists with the same elements are the same list. *)
Lemma ascending_ext (l k : list nat) :
  StronglySorted lt l -> StronglySorted lt k ->
  (forall x, In x l <-> In x k) -> l = k.
Proof.
  intros Hl Hk Hiff.
  apply (StronglySorted_unique_strong lt); [intros; lia | done | done |].
  apply NoDup_Permutation; auto using StronglySorted_lt_NoDup.
  intros x. rewrite !list_elem_of_In. apply Hiff.
Qed.

End SortedFacts.

Section ExtractorTheorems.

Lemma extract_from_seq (data : buffer) (a n : nat) :
  match extract_from data (seq a n) with
  | Some s =>
      exists o, a <= o < a + n /\ s = window data o
                /\ window_matches s = true
                /\ forall o', a <= o' < o ->
                     window_matches (window data o') = false
  | None =>
      forall o, a <= o < a + n -> window_matches (window data o) = false
  end.
Proof.
  revert a. induction n as [|n IH]; intros a; cbn [seq extract_from].
  - intros o Ho. lia.
  - destruct (window_matches (window data a)) eqn:E.
    + exists a. repeat split; [lia | lia | done | intros o' Ho'; lia].
    + specialize (IH (S a)). destruct (extract_from data (seq (S a) n)).
      * destruct IH as (o & Ho & -> & Hm & Hlow). exists o.
        repeat split; [lia | lia | done |].
        intros o' Ho'. destruct (decide (o' = a)) as [->|]; [done|].
        apply Hlow. lia.
      * intros o Ho. destruct (decide (o = a)) as [->|]; [done|].
        apply IH. lia.
Qed.

(** The single-best extractor returns the window at the lowest matching
    offset, or nothing when no offset matches. *)
Lemma extractPeerBytes32_spec (data : buffer) :
  match extractPeerBytes32 data with
  | Some s =>
      exists o, o + 32 <= length data /\ s = window data o
                /\ window_matches s = true
                /\ forall o', o' < o ->
                     window_matches (window data o') = false
  | None =>
      forall o, o + 32 <= length data ->
                window_matches (window data o) = false
  end.
Proof.
  unfold extractPeerBytes32, offsets.
  pose proof (extract_from_seq data 0 (length data + 1 - 32)) as H.
  destruct (extract_from data _).
  - destruct H as (o & Ho & -> & Hm & Hlow). exists o.
    repeat split; [lia | done |]. intros o' Ho'. apply Hlow. lia.
  - intros o Ho. apply H. lia.
Qed.

Lemma in_extractAll (data : buffer) (c : candidate) :
  In c (extractAllEvmPeers data)
  <-> exists o, c = candidate_at data o /\ first_occurrence data o = true.
Proof.
  rewrite extractAllEvmPeers_spec, in_map_iff. split.
  - intros (o & <- & Hin%filter_In). exists o. split; [done | apply Hin].
  - intros (o & -> & Hfo). exists o. split; [done|].
    apply filter_In. split; [|done].
    apply offsets_spec, hit_in_range.
    unfold first_occurrence in Hfo. by apply andb_true_iff in Hfo as [? _].
Qed.

Lemma first_occurrence_lowest (data : buffer) (o o' : nat) :
  first_occurrence data o = true -> o' < o -> hit data o' = true ->
  drop 12 (window data o') <> drop 12 (window data o).
Proof.
  intros Hfo Hlt Hh Heq. unfold first_occurrence in Hfo.
  apply andb_true_iff in Hfo as [_ Hno]. apply negb_true_iff in Hno.
  assert (existsb (fun o' => hit data o' && same_evm data o o') (seq 0 o)
          = true) as E; [|congruence].
  apply existsb_exists. exists o'. split; [apply in_seq; lia|].
  rewrite Hh. by apply same_evm_spec.
Qed.

Lemma extractAll_ascending (data : buffer) :
  StronglySorted lt (map off (extractAllEvmPeers data)).
Proof.
  rewrite extractAllEvmPeers_spec, map_map. cbn [off candidate_at].
  rewrite map_id. apply StronglySorted_filter, StronglySorted_lt_seq.
Qed.

Lemma extractAll_evm_distinct (data : buffer) (c c' : candidate) :
  In c (extractAllEvmPeers data) -> In c' (extractAllEvmPeers data) ->
  evm c = evm c' -> c = c'.
Proof.
  intros (o & -> & Ho)%in_extractAll (o' & -> & Ho')%in_extractAll E.
  cbn [evm candidate_at] in E. apply bytes32ToEvm_inj in E.
  assert (hit data o = true /\ hit data o' = true) as [Hh Hh'].
  { unfold first_occurrence in Ho, Ho'.
    apply andb_true_iff in Ho as [? _]. by apply andb_true_iff in Ho' as [? _]. }
  destruct (lt_eq_lt_dec o o') as [[Hlt | ->] | Hlt]; [|done|].
  - by destruct (first_occurrence_lowest data o' o Ho' Hlt Hh).
  - by destruct (first_occurrence_lowest data o o' Ho Hlt Hh').
Qed.

End ExtractorTheorems.

Section ExtractorClaims.
Import Sample.

Lemma window_middle (pre post : buffer) :
  window (pre ++ zeros 32 ++ post) (length pre) = zeros 32.
Proof.
  unfold window, subarray.
  replace (length pre + 32 - length pre) with (length (zeros 32))
    by (unfold zeros; rewrite repeat_length; lia).
  by rewrite drop_app_length, take_app_length.
Qed.

(** C4. Soundness of the extraction predicate: a window of 32 zero bytes
    never yields a candidate, wherever it lies in a buffer, and a buffer
    that is one 32-byte window whose only non-zero byte is the last one
    yields exactly one candidate (in both extraction modes). *)
Theorem extraction_predicate_sound (pre post : buffer) (b : byte)
    (Hb : b <> x00) :
  looksLikeBytes32EvmAddress (zeros 32) = false
  /\ window_matches (zeros 32) = false
  /\ Forall (fun c => off c <> length pre)
       (extractAllEvmPeers (pre ++ zeros 32 ++ post))
  /\ extractPeerBytes32 (pre ++ zeros 32 ++ post) <> Some (zeros 32)
  /\ extractAllEvmPeers (zeros 31 ++ [b])
     = [candidate_at (zeros 31 ++ [b]) 0]
  /\ extractPeerBytes32 (zeros 31 ++ [b]) = Some (zeros 31 ++ [b]).
Proof.
  split; [reflexivity|]. split; [reflexivity|]. split; [|split].
  - apply Forall_forall. intros c Hc%list_elem_of_In%in_extractAll.
    destruct Hc as (o & -> & Hfo). cbn [off candidate_at]. intros ->.
    unfold first_occurrence, hit in Hfo. rewrite window_middle in Hfo.
    discriminate.
  - pose proof (extractPeerBytes32_spec (pre ++ zeros 32 ++ post)) as H.
    intros E. rewrite E in H. destruct H as (_ & _ & _ & Hm & _).
    discriminate.
  - destruct b; try (exfalso; apply Hb; reflexivity);
      split; vm_compute; reflexivity.
Qed.

Lemma extraction_predicate_sound_witness :
  x01 <> x00
  /\ extractAllEvmPeers (zeros 31 ++ [x01])
     = [candidate_at (zeros 31 ++ [x01]) 0]
  /\ Forall (fun c => off c <> 1)
       (extractAllEvmPeers ([xff] ++ zeros 32 ++ [xff])).
Proof.
  assert (x01 <> x00) as H by discriminate.
  split; [exact H|].
  pose proof (extraction_predicate_sound [xff] [xff] x01 H) as T.
  split; [apply T | apply T].
Defined.

(** C5. Deduplication and first match.  When two offsets carry padded
    addresses with the same 20-byte value, full enumeration reports no
    candidate at the higher offset; the value is reported once, by a
    candidate whose offset is the lowest one whose window satisfies the
    predicate and holds that value.  Every reported candidate is of that
    kind: its offset lies in the buffer, the window there satisfies the
    predicate, its two texts are the hex of that window and of its last 20
    bytes, and no lower matching window holds the same 20 bytes; and no two
    reported candidates have the same value.  Single-best extraction returns
    the window at the lowest matching offset, or nothing when no offset
    matches. *)
Theorem dedup_keeps_lowest_offset (data : buffer) (o1 o2 : nat)
    (Hlt : o1 < o2)
    (H1 : looksLikeBytes32EvmAddress (window data o1) = true)
    (H2 : looksLikeBytes32EvmAddress (window data o2) = true)
    (Heq : drop 12 (window data o1) = drop 12 (window data o2)) :
  Forall (fun c => off c <> o2) (extractAllEvmPeers data)
  /\ (exists c, In c (extractAllEvmPeers data)
        /\ off c <= o1
        /\ looksLikeBytes32EvmAddress (window data (off c)) = true
        /\ drop 12 (window data (off c)) = drop 12 (window data o1)
        /\ evm c = bytes32ToEvm (window data o1)
        /\ forall o, o < off c ->
             looksLikeBytes32EvmAddress (window data o) = true ->
             drop 12 (window data o) <> drop 12 (window data o1))
  /\ Forall (fun c =>
               off c + 32 <= length data
               /\ looksLikeBytes32EvmAddress (window data (off c)) = true
               /\ b32 c = "0x" +:+ to_hex (window data (off c))
               /\ evm c = "0x" +:+ to_hex (drop 12 (window data (off c)))
               /\ forall o, o < off c ->
                    looksLikeBytes32EvmAddress (window data o) = true ->
                    drop 12 (window data o)
                    <> drop 12 (window data (off c)))
       (extractAllEvmPeers data)
  /\ (forall c c', In c (extractAllEvmPeers data) ->
        In c' (extractAllEvmPeers data) -> evm c = evm c' -> c = c')
  /\ match extractPeerBytes32 data with
     | Some s =>
         exists o, o + 32 <= length data /\ s = window data o
                   /\ window_matches s = true
                   /\ forall o', o' < o ->
                        window_matches (window data o') = false
     | None =>
         forall o, o + 32 <= length data ->
                   window_matches (window data o) = false
     end.
Proof.
  assert (forall o, first_occurrence data o = true -> hit data o = true)
    as Hhit.
  { intros o Hfo. unfold first_occurrence in Hfo.
    by apply andb_true_iff in Hfo as [? _]. }
  split; [|split; [|split; [|split]]].
  - apply Forall_forall. intros c Hc%list_elem_of_In%in_extractAll.
    destruct Hc as (o & -> & Hfo). cbn [off candidate_at]. intros ->.
    by destruct (first_occurrence_lowest data o2 o1 Hfo Hlt H1).
  - destruct (first_occurrence_below data o1 H1) as (o & Hle & Hfo & Hs).
    exists (candidate_at data o). cbn [off evm candidate_at].
    split; [apply in_extractAll; by exists o|].
    split; [exact Hle|]. split; [by apply Hhit|].
    split; [by apply same_evm_spec|]. split.
    + apply bytes32ToEvm_inj. by apply same_evm_spec.
    + intros o' Hlo Hh E. apply same_evm_spec in Hs.
      destruct (first_occurrence_lowest data o o' Hfo Hlo Hh). congruence.
  - apply Forall_forall. intros c Hc%list_elem_of_In%in_extractAll.
    destruct Hc as (o & -> & Hfo). cbn [off b32 evm candidate_at].
    split; [by apply hit_in_range, Hhit|]. split; [by apply Hhit|].
    split; [reflexivity|]. split; [reflexivity|].
    intros o' Hlo Hh. by apply (first_occurrence_lowest data o o').
  - apply extractAll_evm_distinct.
  - apply extractPeerBytes32_spec.
Qed.

Lemma dedup_keeps_lowest_offset_witness :
  0 < 64
  /\ looksLikeBytes32EvmAddress (window twin_windows 0) = true
  /\ looksLikeBytes32EvmAddress (window twin_windows 64) = true
  /\ Forall (fun c => off c <> 64) (extractAllEvmPeers twin_windows).
Proof.
  assert (0 < 64) as Hlt by lia.
  assert (looksLikeBytes32EvmAddress (window twin_windows 0) = true) as H1
    by reflexivity.
  assert (looksLikeBytes32EvmAddress (window twin_windows 64) = true) as H2
    by reflexivity.
  assert (drop 12 (window twin_windows 0) = drop 12 (window twin_windows 64))
    as Heq by reflexivity.
  repeat split; try assumption.
  apply (dedup_keeps_lowest_offset twin_windows 0 64 Hlt H1 H2 Heq).
Defined.

Lemma separated_ascending (offs : list nat) :
  separated offs -> StronglySorted lt offs.
Proof.
  induction 1 as [|x l Hs IH Hx]; constructor; [done|].
  eapply Forall_impl; [exact Hx|]. cbn. intros; lia.
Qed.

(** A boolean check that no offset outside [offs] carries a padded
    address, for concrete buffers. *)
Lemma only_hits_check (data : buffer) (offs : list nat) :
  forallb (fun o => implb (hit data o) (bool_decide (o ∈ offs)))
    (offsets data) = true ->
  forall o, hit data o = true -> In o offs.
Proof.
  intros H o Ho. rewrite forallb_forall in H.
  specialize (H o (proj2 (offsets_spec data o) (hit_in_range data o Ho))).
  rewrite Ho in H. cbn [implb] in H.
  by apply bool_decide_eq_true, list_elem_of_In in H.
Qed.

(** C8, as the code has it.  When exactly [k] offsets of a buffer carry a
    padded address (the windows apart from one another, nothing else
    matching) and their 20-byte values are pairwise different, full
    enumeration yields exactly those [k] candidates, by ascending offset. *)
Theorem enumeration_of_distinct_windows (data : buffer) (offs : list nat)
    (Hsep : separated offs)
    (Hvalid : Forall (fun o => hit data o = true) offs)
    (Hfill : forall o, hit data o = true -> In o offs)
    (Hdist : forall o o', In o offs -> In o' offs ->
               drop 12 (window data o) = drop 12 (window data o') -> o = o') :
  extractAllEvmPeers data = map (candidate_at data) offs
  /\ length (extractAllEvmPeers data) = length offs
  /\ StronglySorted lt (map off (extractAllEvmPeers data))
  /\ (forall c c', In c (extractAllEvmPeers data) ->
        In c' (extractAllEvmPeers data) -> evm c = evm c' -> c = c').
Proof.
  assert (extractAllEvmPeers data = map (candidate_at data) offs) as E.
  { rewrite extractAllEvmPeers_spec. f_equal. apply ascending_ext.
    - apply StronglySorted_filter, StronglySorted_lt_seq.
    - by apply separated_ascending.
    - intros o. rewrite filter_In. split.
      + intros [_ Hfo]. apply Hfill. unfold first_occurrence in Hfo.
        by apply andb_true_iff in Hfo as [? _].
      + intros Hin. rewrite Forall_forall in Hvalid.
        pose proof (Hvalid o (proj2 (list_elem_of_In _ _) Hin)) as Hh.
        split; [by apply offsets_spec, hit_in_range|].
        unfold first_occurrence. rewrite Hh. cbn [andb].
        apply negb_true_iff, not_true_is_false. intros Ex.
        apply existsb_exists in Ex as (o' & Hlo%in_seq & Hb).
        apply andb_true_iff in Hb as [Hh' Hs%same_evm_spec].
        assert (o' = o) by (apply Hdist; auto). lia. }
  split; [exact E|]. split; [by rewrite E, length_map|].
  split; [apply extractAll_ascending | apply extractAll_evm_distinct].
Qed.

Lemma enumeration_of_distinct_windows_witness :
  separated [0; 64]
  /\ Forall (fun o => hit two_windows o = true) [0; 64]
  /\ length (extractAllEvmPeers two_windows) = 2.
Proof.
  assert (separated [0; 64]) as Hsep.
  { repeat constructor. }
  assert (Forall (fun o => hit two_windows o = true) [0; 64]) as Hvalid.
  { repeat constructor. }
  assert (forall o, hit two_windows o = true -> In o [0; 64]) as Hfill.
  { apply only_hits_check. vm_compute. reflexivity. }
  assert (forall o o', In o [0; 64] -> In o' [0; 64] ->
            drop 12 (window two_windows o) = drop 12 (window two_windows o')
            -> o = o') as Hdist.
  { intros o o' [<-|[<-|[]]] [<-|[<-|[]]] E; try reflexivity;
      vm_compute in E; discriminate. }
  split; [exact Hsep|]. split; [exact Hvalid|].
  apply (enumeration_of_distinct_windows two_windows [0; 64]
           Hsep Hvalid Hfill Hdist).
Defined.

(** C8 as stated does not hold: two separated valid windows, nothing else
    matching, yet one candidate, because the two windows hold the same
    address. *)
Lemma twin_windows_collapse :
  separated [0; 64]
  /\ Forall (fun o => hit twin_windows o = true) [0; 64]
  /\ (forall o, hit twin_windows o = true -> In o [0; 64])
  /\ extractAllEvmPeers twin_windows = [candidate_at twin_windows 0]
  /\ length (extractAllEvmPeers twin_windows) <> 2.
Proof.
  split; [repeat constructor|]. split; [repeat constructor|].
  split; [apply only_hits_check; vm_compute; reflexivity|].
  split; [vm_compute; reflexivity | vm_compute; discriminate].
Qed.

(** A second way in which the count can differ: a valid window whose
    address starts with zero bytes is also matched, with other values, at
    the offsets right after it, whatever non-matching filler follows. *)
Lemma leading_zero_address_matches_again :
  hit (zeros 31 ++ [x01] ++ repeat xff 32) 0 = true
  /\ (forall o, 32 <= o -> hit (zeros 31 ++ [x01] ++ repeat xff 32) o = false)
  /\ map off (extractAllEvmPeers (zeros 31 ++ [x01] ++ repeat xff 32))
     = seq 0 20.
Proof.
  split; [reflexivity|]. split; [|vm_compute; reflexivity].
  intros o Ho. apply not_true_is_false. intros H.
  pose proof (hit_in_range _ _ H) as Hr.
  assert (length (zeros 31 ++ [x01] ++ repeat xff 32) = 64) as Hlen
    by reflexivity.
  assert (o = 32) as -> by lia.
  vm_compute in H. discriminate.
Qed.

End ExtractorClaims.

(** ** The extractor leaves the store as it found it *)

Section MemFacts.
Import Mem.

Lemma contents_app (h extra : heap) (v : view) :
  valid h v -> contents (h ++ extra) v = contents h v.
Proof.
  intros (bs & Hbs & _). unfold contents.
  by rewrite (lookup_app_l_Some _ _ _ _ Hbs), Hbs.
Qed.

Lemma valid_app (h extra : heap) (v : view) :
  valid h v -> valid (h ++ extra) v.
Proof.
  intros (bs & Hbs & Hle). exists bs. split; [|done].
  by apply lookup_app_l_Some.
Qed.

Lemma valid_subarray (h : heap) (v : view) (s e : nat) :
  valid h v -> valid h (subarray v s e).
Proof.
  intros (bs & Hbs & Hle). exists bs. split; [done|].
  cbn [subarray byteOffset len]. lia.
Qed.

Lemma length_contents (h : heap) (v : view) :
  valid h v -> length (contents h v) = len v.
Proof.
  intros (bs & Hbs & Hle). unfold contents. rewrite Hbs. simpl.
  rewrite length_take, length_drop. lia.
Qed.

Lemma contents_subarray (h : heap) (v : view) (s e : nat) :
  contents h (subarray v s e) = Bytes.subarray (contents h v) s e.
Proof.
  unfold contents, subarray, Bytes.subarray. cbn [buf byteOffset len].
  set (B := default [] (h !! buf v)).
  rewrite !take_drop_commute, drop_drop, take_take.
  destruct (decide (s <= len v)).
  - f_equal; [lia|]. f_equal. lia.
  - rewrite !drop_ge; [done | rewrite length_take; lia
                       | rewrite length_take; lia].
Qed.

Lemma contents_fresh (h : heap) (bs : list byte) :
  contents (h ++ [bs]) (mkView (length h) 0 (length bs)) = bs.
Proof.
  unfold contents. cbn [buf byteOffset len].
  rewrite lookup_app_r by lia. rewrite Nat.sub_diag. cbn.
  by rewrite take_ge.
Qed.

Lemma looksLike_refines (h : heap) (v : view) :
  valid h v ->
  Mem.looksLikeBytes32EvmAddress h v
  = Extractor.looksLikeBytes32EvmAddress (contents h v).
Proof.
  intros Hv. unfold Mem.looksLikeBytes32EvmAddress,
    Extractor.looksLikeBytes32EvmAddress.
  rewrite (length_contents h v Hv). reflexivity.
Qed.

Lemma hex_refines (h : heap) (v : view) :
  Mem.hex h v = (h ++ [contents h v], Bytes.hex (contents h v)).
Proof. unfold Mem.hex, copy, alloc. by rewrite contents_fresh. Qed.

Lemma bytes32ToEvm_refines (h : heap) (v : view) :
  valid h v ->
  Mem.bytes32ToEvm h v
  = (h ++ [drop 12 (contents h v)], Bytes.bytes32ToEvm (contents h v)).
Proof.
  intros Hv. unfold Mem.bytes32ToEvm, copy, alloc, subarray_from.
  rewrite contents_fresh, contents_subarray. unfold Bytes.subarray.
  rewrite <- (length_contents h v Hv).
  assert (take (length (contents h v) - 12) (drop 12 (contents h v))
          = drop 12 (contents h v)) as ->
    by (apply take_ge; rewrite length_drop; lia).
  reflexivity.
Qed.

(** One loop iteration of the scan: the store only grows, the candidates
    are those of the scan over the contents. *)
Lemma scan_step_refines (h0 extra : heap) (data : view)
    (out : list candidate) (o : nat) :
  valid h0 data ->
  exists extra',
    Mem.scan_step data (h0 ++ extra, out) o
    = (h0 ++ extra', Extractor.scan_step (contents h0 data) out o).
Proof.
  intros Hv. unfold Mem.scan_step, Extractor.scan_step, window.
  pose proof (valid_app h0 extra data Hv) as Hv'.
  pose proof (valid_subarray _ _ o (o + 32) Hv') as Hs.
  rewrite (looksLike_refines _ _ Hs), contents_subarray.
  rewrite (contents_app h0 extra data Hv).
  destruct (Extractor.looksLikeBytes32EvmAddress _); [|by exists extra].
  rewrite hex_refines.
  rewrite (bytes32ToEvm_refines _ _ (valid_app _ [_] _ Hs)).
  rewrite (contents_app _ [_] _ Hs), contents_subarray.
  rewrite (contents_app h0 extra data Hv).
  rewrite <- !(assoc_L (++)).
  destruct (find _ out); eexists; reflexivity.
Qed.

Lemma scan_refines (h0 : heap) (data : view) (offs : list nat) :
  valid h0 data ->
  forall extra out, exists extra',
    fold_left (Mem.scan_step data) offs (h0 ++ extra, out)
    = (h0 ++ extra',
       fold_left (Extractor.scan_step (contents h0 data)) offs out).
Proof.
  intros Hv. induction offs as [|o offs IH]; intros extra out; cbn [fold_left].
  - by exists extra.
  - destruct (scan_step_refines h0 extra data out o Hv) as (extra1 & ->).
    apply IH.
Qed.

Lemma offsets_refines (h : heap) (data : view) :
  valid h data -> Mem.offsets data = Extractor.offsets (contents h data).
Proof.
  intros Hv. unfold Mem.offsets, Extractor.offsets.
  by rewrite (length_contents h data Hv).
Qed.

(** Full enumeration over the store computes the scan of the contents and
    only appends fresh buffers. *)
Lemma extractAll_refines (h : heap) (data : view) :
  valid h data ->
  exists extra,
    Mem.extractAllEvmPeers h data
    = (h ++ extra, Extractor.extractAllEvmPeers (contents h data)).
Proof.
  intros Hv. unfold Mem.extractAllEvmPeers, Extractor.extractAllEvmPeers.
  rewrite (offsets_refines h data Hv).
  destruct (scan_refines h data (Extractor.offsets (contents h data)) Hv [] [])
    as (extra & E).
  rewrite app_nil_r in E. by exists extra.
Qed.

Lemma extract_from_refines (h : heap) (data : view) (offs : list nat) :
  valid h data ->
  (exists r,
     Extractor.extract_from (contents h data) offs = Some r
     /\ Mem.extract_from h data offs
        = (h ++ [r], Some (mkView (length h) 0 (length r))))
  \/ (Extractor.extract_from (contents h data) offs = None
      /\ Mem.extract_from h data offs = (h, None)).
Proof.
  intros Hv. induction offs as [|o offs IH];
    cbn [Mem.extract_from Extractor.extract_from]; [by right|].
  unfold Mem.every_zero, window_matches, Bytes.every_zero, subarray_from.
  rewrite !contents_subarray. unfold window.
  set (s := Bytes.subarray (contents h data) o (o + 32)).
  assert (len (subarray data o (o + 32)) = length s) as ->.
  { subst s. rewrite <- contents_subarray.
    symmetry. by apply length_contents, valid_subarray. }
  assert (Bytes.subarray s 12 (length s) = Bytes.subarray_from s 12) as ->.
  { unfold Bytes.subarray, Bytes.subarray_from. apply take_ge.
    rewrite length_drop. lia. }
  unfold Bytes.subarray_from.
  destruct (forallb is_zero (Bytes.subarray s 0 12)
            && negb (forallb is_zero (drop 12 s))); [|exact IH].
  left. exists s. split; [done|].
  unfold copy, alloc. by rewrite contents_subarray.
Qed.

End MemFacts.

Section FrameClaim.
Import Mem.

Lemma short_buffer_offsets (n : nat) : n < 32 -> seq 0 (n + 1 - 32) = [].
Proof. intros H. by replace (n + 1 - 32) with 0 by lia. Qed.

(** C7. The extractor never changes the buffer it reads: after either mode
    has run, every buffer that existed before still has the bytes it had
    (the store has only grown by fresh copies, and the single-best result
    lives in one of those, not in the input); a buffer shorter than 32
    bytes gives the empty sequence, respectively nothing; and a second run,
    on the store the first run left behind, gives the same output as the
    first. *)
Theorem extractor_frame (h : heap) (data : view) (Hv : valid h data) :
  (exists extra,
     Mem.extractAllEvmPeers h data
     = (h ++ extra, Extractor.extractAllEvmPeers (contents h data))
     /\ contents (h ++ extra) data = contents h data
     /\ snd (Mem.extractAllEvmPeers (h ++ extra) data)
        = snd (Mem.extractAllEvmPeers h data))
  /\ (exists extra r,
        Mem.extractPeerBytes32 h data = (h ++ extra, r)
        /\ contents (h ++ extra) data = contents h data
        /\ option_map (contents (h ++ extra)) r
           = Extractor.extractPeerBytes32 (contents h data)
        /\ (forall v, r = Some v -> length h <= buf v)
        /\ (let '(h2, r2) := Mem.extractPeerBytes32 (h ++ extra) data in
            option_map (contents h2) r2
            = option_map (contents (h ++ extra)) r))
  /\ (len data < 32 ->
      Mem.extractAllEvmPeers h data = (h, [])
      /\ Mem.extractPeerBytes32 h data = (h, None)).
Proof.
  split; [|split].
  - destruct (extractAll_refines h data Hv) as (extra & E).
    exists extra. split; [exact E|]. split; [by apply contents_app|].
    destruct (extractAll_refines (h ++ extra) data (valid_app _ _ _ Hv))
      as (extra2 & E2).
    rewrite E2, E. cbn [snd]. by rewrite contents_app.
  - unfold Mem.extractPeerBytes32.
    assert (forall h1, valid h1 data -> contents h1 data = contents h data ->
              exists extra r,
                Mem.extract_from h1 data (Mem.offsets data) = (h1 ++ extra, r)
                /\ option_map (contents (h1 ++ extra)) r
                   = Extractor.extractPeerBytes32 (contents h data)
                /\ (forall v, r = Some v -> length h1 <= buf v)) as Run.
    { intros h1 Hv1 Hc.
      destruct (extract_from_refines h1 data (Mem.offsets data) Hv1)
        as [(r & Hp & Hm) | (Hp & Hm)].
      - exists [r], (Some (mkView (length h1) 0 (length r))).
        split; [exact Hm|]. split.
        + cbn [option_map]. rewrite contents_fresh.
          unfold Extractor.extractPeerBytes32.
          by rewrite <- Hc, <- (offsets_refines h1 data Hv1), Hp.
        + intros v [= <-]. done.
      - exists [], None. split; [by rewrite app_nil_r|]. split.
        + cbn [option_map]. unfold Extractor.extractPeerBytes32.
          by rewrite <- Hc, <- (offsets_refines h1 data Hv1), Hp.
        + intros v [=]. }
    destruct (Run h Hv eq_refl) as (extra & r & E & Hr & Hfresh).
    exists extra, r. split; [exact E|].
    split; [by apply contents_app|]. split; [exact Hr|].
    split; [exact Hfresh|].
    destruct (Run (h ++ extra) (valid_app _ _ _ Hv) (contents_app _ _ _ Hv))
      as (extra2 & r2 & E2 & Hr2 & _).
    rewrite E2. congruence.
  - intros Hshort. unfold Mem.extractAllEvmPeers, Mem.extractPeerBytes32,
      Mem.offsets.
    by rewrite (short_buffer_offsets _ Hshort).
Qed.

Lemma extractor_frame_witness :
  valid [zeros 31 ++ [x01]; zeros 4] (mkView 0 0 32)
  /\ exists extra r,
       Mem.extractPeerBytes32 [zeros 31 ++ [x01]; zeros 4] (mkView 0 0 32)
       = ([zeros 31 ++ [x01]; zeros 4] ++ extra, r)
       /\ contents ([zeros 31 ++ [x01]; zeros 4] ++ extra) (mkView 0 0 32)
          = contents [zeros 31 ++ [x01]; zeros 4] (mkView 0 0 32).
Proof.
  assert (valid [zeros 31 ++ [x01]; zeros 4] (mkView 0 0 32)) as Hv.
  { exists (zeros 31 ++ [x01]). split; [reflexivity | vm_compute; lia]. }
  split; [exact Hv|].
  destruct (extractor_frame _ _ Hv) as (_ & (extra & r & E & Hc & _) & _).
  exists extra, r. split; [exact E | exact Hc].
Defined.

(** The same facts on contents alone: a buffer shorter than 32 bytes has no
    window. *)
Lemma short_buffer_no_candidate (data : buffer) :
  length data < 32 ->
  Extractor.extractAllEvmPeers data = []
  /\ Extractor.extractPeerBytes32 data = None.
Proof.
  intros H. unfold Extractor.extractAllEvmPeers,
    Extractor.extractPeerBytes32, Extractor.offsets.
  by rewrite (short_buffer_offsets _ H).
Qed.

End FrameClaim.

(** ** The targeted resolver of index.ts *)

Section ResolverFacts.
Context `{W : Web3} `{C : !Connection}.
Import Index.

(** [derivePeerPda] once both addresses are derived: the first address is
    fetched, the second one only when the first holds nothing. *)
Lemma derivePeerPda_run (programId store : PublicKey) (eid : Z)
    (pLE pBE : PublicKey) (w : world) :
  peerPdaFor programId store eid LE = Ok pLE ->
  peerPdaFor programId store eid BE = Ok pBE ->
  derivePeerPda programId store eid w
  = match getAccountInfo pLE with
    | Throw e => (Raise e, logged w [GetAccountInfo pLE])
    | Ok (Some a) =>
        (Return (Peer.mk (Some pLE) (Some a) (Some LE)),
         logged w [GetAccountInfo pLE])
    | Ok None =>
        match getAccountInfo pBE with
        | Throw e =>
            (Raise e, logged w [GetAccountInfo pLE; GetAccountInfo pBE])
        | Ok (Some a) =>
            (Return (Peer.mk (Some pBE) (Some a) (Some BE)),
             logged w [GetAccountInfo pLE; GetAccountInfo pBE])
        | Ok None =>
            (Return (Peer.mk None None None),
             logged w [GetAccountInfo pLE; GetAccountInfo pBE])
        end
    end.
Proof.
  unfold peerPdaFor. intros HLE HBE.
  unfold derivePeerPda, bind, lift, conn_getAccountInfo, logged.
  rewrite HLE, HBE. cbn [of_result calls console].
  destruct (getAccountInfo pLE) as [[a|]|e]; cbn [of_result]; try reflexivity.
  destruct (getAccountInfo pBE) as [[a|]|e]; cbn [of_result ret calls console];
    by rewrite <- ?(assoc_L (++)).
Qed.

(** When a derivation fails, nothing is fetched. *)
Lemma derivePeerPda_returns (programId store : PublicKey) (eid : Z)
    (w w' : world) (r : Peer.t) :
  derivePeerPda programId store eid w = (Return r, w') ->
  exists pLE pBE,
    peerPdaFor programId store eid LE = Ok pLE
    /\ peerPdaFor programId store eid BE = Ok pBE.
Proof.
  unfold peerPdaFor, derivePeerPda, bind, lift.
  destruct (peer_address programId store (u32LE eid)) as [pLE|e];
    cbn [of_result]; [|discriminate].
  destruct (peer_address programId store (u32BE eid)) as [pBE|e];
    cbn [of_result]; [|discriminate].
  intros _. by exists pLE, pBE.
Qed.

(** The console is not written to, whatever [readOne] does, and its
    result does not depend on what was logged before. *)
Lemma derivePeerPda_world (programId store : PublicKey) (eid : Z)
    (w : world) :
  fst (derivePeerPda programId store eid w)
  = fst (derivePeerPda programId store eid empty_world)
  /\ console (snd (derivePeerPda programId store eid w)) = console w.
Proof.
  unfold derivePeerPda, bind, lift, conn_getAccountInfo.
  destruct (peer_address programId store (u32LE eid)) as [pLE|e];
    cbn [of_result]; [|done].
  destruct (peer_address programId store (u32BE eid)) as [pBE|e];
    cbn [of_result]; [|done].
  destruct (getAccountInfo pLE) as [[a|]|e]; cbn [of_result]; try done.
  destruct (getAccountInfo pBE) as [[a|]|e]; cbn [of_result]; done.
Qed.

Lemma readOne_world (programId store : PublicKey) (eid : Z) (w : world) :
  fst (readOne programId store eid w)
  = fst (readOne programId store eid empty_world)
  /\ console (snd (readOne programId store eid w)) = console w.
Proof.
  unfold readOne, bind.
  destruct (derivePeerPda_world programId store eid w) as [Hf Hc].
  destruct (derivePeerPda programId store eid w) as [o w1].
  destruct (derivePeerPda programId store eid empty_world) as [o0 w0].
  cbn [fst snd] in *. subst o0. by destruct o.
Qed.

Lemma readOne_no_exit (programId store : PublicKey) (eid : Z) (w : world)
    (c : Z) :
  fst (readOne programId store eid w) <> Exit c.
Proof.
  unfold readOne, derivePeerPda, bind, lift, conn_getAccountInfo.
  destruct (peer_address programId store (u32LE eid)) as [pLE|e];
    cbn [of_result]; [|done].
  destruct (peer_address programId store (u32BE eid)) as [pBE|e];
    cbn [of_result]; [|done].
  destruct (getAccountInfo pLE) as [[a|]|e]; cbn [of_result]; try done.
  destruct (getAccountInfo pBE) as [[a|]|e]; cbn [of_result]; done.
Qed.

End ResolverFacts.

Section ResolverClaims.
Context `{W : Web3} `{C : !Connection}.
Import Index.

(** C1, as the code has it.  The targeted resolver derives both addresses
    and fetches the little-endian one first; the big-endian one is fetched
    only when the first holds no buffer.  A reported byte order is one whose
    derived address is the reported address and has a buffer on the ledger;
    big-endian is reported only when the little-endian address has none. *)
Theorem reported_byte_order (programId store : PublicKey) (eid : Z)
    (w w' : world) (r : Peer.t)
    (Hrun : derivePeerPda programId store eid w = (Return r, w')) :
  exists pLE pBE,
    peerPdaFor programId store eid LE = Ok pLE
    /\ peerPdaFor programId store eid BE = Ok pBE
    /\ match Peer.endian r with
       | Some LE =>
           exists a, getAccountInfo pLE = Ok (Some a)
                     /\ Peer.pda r = Some pLE /\ Peer.ai r = Some a
                     /\ w' = logged w [GetAccountInfo pLE]
       | Some BE =>
           exists a, getAccountInfo pLE = Ok None
                     /\ getAccountInfo pBE = Ok (Some a)
                     /\ Peer.pda r = Some pBE /\ Peer.ai r = Some a
                     /\ w' = logged w [GetAccountInfo pLE; GetAccountInfo pBE]
       | None =>
           getAccountInfo pLE = Ok None /\ getAccountInfo pBE = Ok None
           /\ Peer.pda r = None /\ Peer.ai r = None
           /\ w' = logged w [GetAccountInfo pLE; GetAccountInfo pBE]
       end
    /\ (pLE <> pBE ->
        forall e pda, Peer.endian r = Some e -> Peer.pda r = Some pda ->
        forall e', peerPdaFor programId store eid e' = Ok pda -> e' = e).
Proof.
  destruct (derivePeerPda_returns _ _ _ _ _ _ Hrun) as (pLE & pBE & HLE & HBE).
  exists pLE, pBE. split; [exact HLE|]. split; [exact HBE|].
  rewrite (derivePeerPda_run _ _ _ _ _ _ HLE HBE) in Hrun.
  assert (forall e p, peerPdaFor programId store eid e = Ok p ->
            p = match e with LE => pLE | BE => pBE end) as Hfun.
  { intros [] p Hp; congruence. }
  destruct (getAccountInfo pLE) as [[a|]|e]; [| |discriminate].
  - injection Hrun as <- <-. cbn. split; [by exists a|].
    intros Hne e pda [= <-] [= <-] e' He'. apply Hfun in He'.
    by destruct e'.
  - destruct (getAccountInfo pBE) as [[a|]|e]; [| |discriminate];
      injection Hrun as <- <-; cbn; (split; [by (exists a) || done|]).
    + intros Hne e pda [= <-] [= <-] e' He'. apply Hfun in He'.
      by destruct e'.
    + intros _ e pda [=].
Qed.

(** With a buffer at both derived addresses the first one wins, whatever
    the derivation primitive and the ledger are. *)
Lemma both_buffers_first_wins (programId store : PublicKey) (eid : Z)
    (pLE pBE : PublicKey) (aLE aBE : AccountInfo) (w : world) :
  peerPdaFor programId store eid LE = Ok pLE ->
  peerPdaFor programId store eid BE = Ok pBE ->
  getAccountInfo pLE = Ok (Some aLE) ->
  getAccountInfo pBE = Ok (Some aBE) ->
  derivePeerPda programId store eid w
  = (Return (Peer.mk (Some pLE) (Some aLE) (Some LE)),
     logged w [GetAccountInfo pLE]).
Proof.
  intros HLE HBE HaLE _.
  by rewrite (derivePeerPda_run _ _ _ _ _ _ HLE HBE), HaLE.
Qed.

(** C6. Targeted mode: when neither derived address has a buffer the row
    has exists = false; when a buffer is found (at the first address, or at
    the second when the first has none) and none of its 32-byte windows
    satisfies the predicate, the row has exists = true and no remote
    address. *)
Theorem targeted_lookup_states (programId storePda : PublicKey) (eid : Z)
    (pLE pBE : PublicKey) (w : world)
    (HLE : peerPdaFor programId storePda eid LE = Ok pLE)
    (HBE : peerPdaFor programId storePda eid BE = Ok pBE) :
  (getAccountInfo pLE = Ok None -> getAccountInfo pBE = Ok None ->
   exists w',
     readOne programId storePda eid w
     = (Return (Row.mk eid None false None None None), w'))
  /\ (forall a,
        getAccountInfo pLE = Ok (Some a)
        \/ (getAccountInfo pLE = Ok None /\ getAccountInfo pBE = Ok (Some a)) ->
        (forall o, o + 32 <= length (data a) ->
                   window_matches (window (data a) o) = false) ->
        exists r w',
          readOne programId storePda eid w = (Return r, w')
          /\ Row.eid r = eid /\ Row.exists_ r = true
          /\ Row.evm r = None /\ Row.bytes32 r = None).
Proof.
  unfold readOne, bind.
  rewrite (derivePeerPda_run _ _ _ _ _ _ HLE HBE). split.
  - intros -> ->. eexists. reflexivity.
  - intros a Hfound Hnone.
    assert (extractPeerBytes32 (data a) = None) as Hex.
    { pose proof (extractPeerBytes32_spec (data a)) as S.
      destruct (extractPeerBytes32 (data a)); [|done].
      destruct S as (o & Ho & -> & Hm & _). rewrite Hnone in Hm; done. }
    destruct Hfound as [-> | [-> ->]]; cbn [ret Peer.ai Peer.pda Peer.endian];
      rewrite Hex; eexists _, _; (split; [reflexivity|]); cbn; done.
Qed.

(** C9, as the code has it.  The batch loop always runs to its end: for each
    identifier a thrown failure is caught and dropped, without anything
    being written to the console, and the rows collected are exactly those
    of the identifiers whose lookup succeeded and found a record, in the
    order of the input. *)
Theorem batch_partial_results (programId storePda : PublicKey)
    (eids : list Z) (rows : list Row.t) (w : world) :
  exists w',
    collect_rows programId storePda eids rows w
    = (Return
         (rows ++
          omap (fun eid =>
                  match fst (readOne programId storePda eid empty_world) with
                  | Return r => if Row.exists_ r then Some r else None
                  | _ => None
                  end) eids), w')
    /\ console w' = console w.
Proof.
  revert rows w. induction eids as [|eid eids IH]; intros rows w.
  - exists w. cbn. by rewrite app_nil_r.
  - cbn [collect_rows omap]. unfold bind at 1. unfold try_catch, bind at 1.
    destruct (readOne_world programId storePda eid w) as [Hf Hc].
    pose proof (readOne_no_exit programId storePda eid w) as Hne.
    destruct (readOne programId storePda eid w) as [o w1].
    cbn [fst snd] in Hf, Hc, Hne.
    assert (forall f : Z -> option Row.t,
              omap f (eid :: eids)
              = match f eid with
                | Some y => y :: omap f eids
                | None => omap f eids
                end) as -> by done.
    rewrite <- Hf.
    destruct o as [r|e|c]; [| |by destruct (Hne c)]; cbn [ret].
    + destruct (Row.exists_ r).
      * destruct (IH (rows ++ [r]) w1) as (w' & E & Hw).
        exists w'. rewrite E, <- (assoc_L (++)). split; [done | congruence].
      * destruct (IH rows w1) as (w' & E & Hw).
        exists w'. rewrite E. split; [done | congruence].
    + destruct (IH rows w1) as (w' & E & Hw).
      exists w'. rewrite E. split; [done | congruence].
Qed.

End ResolverClaims.

Section ResolverExamples.
Import Index Sample.

(** A boolean check that no window of a concrete buffer matches. *)
Lemma no_window_check (d : buffer) :
  forallb (fun o => negb (window_matches (window d o))) (offsets d) = true ->
  forall o, o + 32 <= length d -> window_matches (window d o) = false.
Proof.
  intros H o Ho. rewrite forallb_forall in H.
  apply negb_true_iff, H, offsets_spec, Ho.
Qed.

(** An identifier whose four bytes read the same in both orders has one
    address only, whatever the derivation primitive is. *)
Lemma palindromic_eid_same_address `{W : Web3} (programId store : PublicKey) :
  peerPdaFor programId store 0 LE = peerPdaFor programId store 0 BE.
Proof. reflexivity. Qed.

Lemma reported_byte_order_witness :
  derivePeerPda (C := be_blank) programId storePda 30109 empty_world
  = (Return (Peer.mk (Some peerBE) (Some (account blank_record)) (Some BE)),
     logged empty_world [GetAccountInfo peerLE; GetAccountInfo peerBE])
  /\ exists pLE pBE,
       peerPdaFor programId storePda 30109 LE = Ok pLE
       /\ peerPdaFor programId storePda 30109 BE = Ok pBE
       /\ getAccountInfo (Connection := be_blank) pLE = Ok None
       /\ getAccountInfo (Connection := be_blank) pBE
          = Ok (Some (account blank_record)).
Proof.
  assert (derivePeerPda (C := be_blank) programId storePda 30109 empty_world
          = (Return (Peer.mk (Some peerBE) (Some (account blank_record))
                       (Some BE)),
             logged empty_world [GetAccountInfo peerLE; GetAccountInfo peerBE]))
    as Hrun by (vm_compute; reflexivity).
  split; [exact Hrun|].
  destruct (reported_byte_order (C := be_blank) _ _ _ _ _ _ Hrun)
    as (pLE & pBE & H1 & H2 & H3 & _).
  cbn [Peer.endian] in H3. destruct H3 as (a & H4 & H5 & H6 & H7 & _).
  exists pLE, pBE. cbn [Peer.ai] in H7. injection H7 as <-. done.
Defined.

(** C1 as stated does not hold: with a buffer at both derived addresses of
    one identifier, the resolver answers little-endian after fetching the
    first address only; its answer and its calls are those it gives when
    the second buffer does not exist. *)
Lemma ambiguity_silently_resolved :
  peerPdaFor programId storePda 30109 LE = Ok peerLE
  /\ peerPdaFor programId storePda 30109 BE = Ok peerBE
  /\ peerLE <> peerBE
  /\ getAccountInfo (Connection := both_peers) peerLE
     = Ok (Some (account (record ab20)))
  /\ getAccountInfo (Connection := both_peers) peerBE
     = Ok (Some (account (record (repeat xcd 20))))
  /\ derivePeerPda (C := both_peers) programId storePda 30109 empty_world
     = (Return (Peer.mk (Some peerLE) (Some (account (record ab20)))
                  (Some LE)),
        logged empty_world [GetAccountInfo peerLE])
  /\ derivePeerPda (C := both_peers) programId storePda 30109 empty_world
     = derivePeerPda (C := le_only) programId storePda 30109 empty_world.
Proof.
  repeat split; try (vm_compute; reflexivity).
  intros E. vm_compute in E. discriminate.
Qed.

Lemma targeted_lookup_states_witness :
  peerPdaFor programId storePda 30109 LE = Ok peerLE
  /\ peerPdaFor programId storePda 30109 BE = Ok peerBE
  /\ (exists w',
        readOne (C := no_peers) programId storePda 30109 empty_world
        = (Return (Row.mk 30109 None false None None None), w'))
  /\ (exists r w',
        readOne (C := be_blank) programId storePda 30109 empty_world
        = (Return r, w')
        /\ Row.eid r = 30109%Z /\ Row.exists_ r = true
        /\ Row.evm r = None /\ Row.bytes32 r = None).
Proof.
  assert (peerPdaFor programId storePda 30109 LE = Ok peerLE) as HLE
    by reflexivity.
  assert (peerPdaFor programId storePda 30109 BE = Ok peerBE) as HBE
    by reflexivity.
  split; [exact HLE|]. split; [exact HBE|]. split.
  - apply (targeted_lookup_states (C := no_peers) programId storePda 30109
             peerLE peerBE empty_world HLE HBE); reflexivity.
  - apply (proj2 (targeted_lookup_states (C := be_blank) programId storePda
                    30109 peerLE peerBE empty_world HLE HBE)
             (account blank_record)).
    + right. split; reflexivity.
    + apply no_window_check. vm_compute. reflexivity.
Defined.

(** C9 as stated does not hold: the lookup of the first identifier throws,
    the loop goes on to the second one, and nothing has been written to the
    console. *)
Lemma batch_failure_not_logged :
  fst (readOne (C := flaky) programId storePda 30109 empty_world)
  = Raise "fetch failed"
  /\ exists r w',
       collect_rows (C := flaky) programId storePda [30109; 30110]%Z []
         empty_world
       = (Return [r], w')
       /\ Row.eid r = 30110%Z /\ Row.exists_ r = true
       /\ console w' = [].
Proof.
  split; [vm_compute; reflexivity|].
  eexists _, _. split; [vm_compute; reflexivity|]. done.
Qed.

End ResolverExamples.

(** ** The command-line parser *)

Section ParserFacts.
Import Index.

Lemma startsWith_dashes (s : string) :
  startsWith s "--" = true -> s = "--" +:+ slice_from 2 s.
Proof.
  unfold startsWith. destruct s as [|a [|b s]]; intros H.
  - discriminate H.
  - change (String.prefix "--" (String a EmptyString))
      with (if ascii_dec "-" a then false else false) in H.
    destruct (ascii_dec "-" a); discriminate.
  - change (String.prefix "--" (String a (String b s)))
      with (if ascii_dec "-" a
            then if ascii_dec "-" b then String.prefix EmptyString s
                 else false
            else false) in H.
    destruct (ascii_dec "-" a) as [<-|]; [|discriminate].
    destruct (ascii_dec "-" b) as [<-|]; [|discriminate]. reflexivity.
Qed.

Lemma startsWith_option (key : string) : startsWith ("--" +:+ key) "--" = true.
Proof. unfold startsWith. apply String.prefix_correct. by destruct key. Qed.

Lemma slice_option (key : string) : slice_from 2 ("--" +:+ key) = key.
Proof. reflexivity. Qed.

(** Tokens other than ["--" +:+ key] leave the entry of [key] alone. *)
Lemma collect_other (key : string) (l : list string)
    (m : gmap string string) :
  Forall (fun t => t <> "--" +:+ key) l ->
  collect l m !! key = m !! key.
Proof.
  remember (length l) as n eqn:Hn. revert l m Hn.
  induction n as [n IH] using lt_wf_ind. intros l m -> Hl.
  destruct l as [|arg rest]; [done|]. cbn [collect].
  apply Forall_cons in Hl as [Harg Hrest].
  destruct (startsWith arg "--") eqn:Ha; cbn [negb].
  - assert (slice_from 2 arg <> key) as Hk.
    { intros <-. apply Harg. by apply startsWith_dashes. }
    destruct rest as [|next rest'].
    + cbn [collect]. by rewrite lookup_insert_ne.
    + destruct (truthy next && negb (startsWith next "--")).
      * apply Forall_cons in Hrest as [_ Hrest'].
        rewrite (IH (length rest')) by (cbn [length]; done || lia).
        by rewrite lookup_insert_ne.
      * rewrite (IH (length (next :: rest'))) by (cbn [length]; done || lia).
        by rewrite lookup_insert_ne.
  - by apply (IH (length rest)); [cbn [length]; lia | |].
Qed.

(** The entry of an option is decided by its last occurrence. *)
Lemma collect_last (key : string) (pre post : list string)
    (m : gmap string string) :
  Forall (fun t => t <> "--" +:+ key) post ->
  collect (pre ++ ("--" +:+ key) :: post) m !! key = Some (option_value post).
Proof.
  intros Hpost.
  assert (forall m, collect (("--" +:+ key) :: post) m !! key
                    = Some (option_value post)) as Hhere.
  { intros m'. cbn [collect]. rewrite startsWith_option, slice_option.
    cbn [negb]. unfold option_value. destruct post as [|next rest'].
    - cbn [collect]. by rewrite lookup_insert_eq.
    - destruct (truthy next && negb (startsWith next "--")).
      + apply Forall_cons in Hpost as [_ Hrest].
        by rewrite collect_other, lookup_insert_eq.
      + by rewrite collect_other, lookup_insert_eq. }
  remember (length pre) as n eqn:Hn. revert pre m Hn.
  induction n as [n IH] using lt_wf_ind. intros pre m ->.
  destruct pre as [|arg pre']; [apply Hhere|].
  cbn [app collect]. destruct (startsWith arg "--"); cbn [negb].
  - destruct pre' as [|next pre'']; cbn [app].
    + rewrite startsWith_option, andb_false_r. apply Hhere.
    + destruct (truthy next && negb (startsWith next "--")).
      * apply (IH (length pre'')); [cbn [length]; lia | done].
      * apply (IH (length (next :: pre'')) ltac:(cbn [length]; lia)
                 (next :: pre'')); done.
  - apply (IH (length pre')); [cbn [length]; lia | done].
Qed.

(** A token that is not an option and comes right after another such token
    is passed over. *)
Lemma collect_skip (pre post : list string) (v t : string)
    (m : gmap string string) :
  startsWith v "--" = false -> startsWith t "--" = false ->
  collect (pre ++ v :: t :: post) m = collect (pre ++ v :: post) m.
Proof.
  intros Hv Ht.
  assert (forall m, collect (v :: t :: post) m = collect (v :: post) m)
    as Hhere.
  { intros m'. cbn [collect]. by rewrite Hv, Ht. }
  remember (length pre) as n eqn:Hn. revert pre m Hn.
  induction n as [n IH] using lt_wf_ind. intros pre m ->.
  destruct pre as [|arg pre']; [apply Hhere|].
  cbn [app collect]. destruct (startsWith arg "--"); cbn [negb].
  - destruct pre' as [|next pre'']; cbn [app].
    + rewrite Hv. cbn [negb]. rewrite andb_true_r.
      destruct (truthy v); [|apply Hhere].
      cbn [collect]. by rewrite Ht.
    + destruct (truthy next && negb (startsWith next "--")).
      * apply (IH (length pre'')); [cbn [length]; lia | done].
      * apply (IH (length (next :: pre'')) ltac:(cbn [length]; lia)
                 (next :: pre'')); done.
  - apply (IH (length pre')); [cbn [length]; lia | done].
Qed.

End ParserFacts.

Section ParserClaim.
Import Index.

(** C10, as the code has it.  The entry of an option is set by its last
    occurrence: to the next token when there is one that is not empty and
    does not start with two dashes (that token is consumed), and to the
    text true otherwise.  So a flag such as --list or --json is on exactly
    when its last occurrence is the last token, is followed by another
    option, or is followed by the token true; followed by any other token
    that is not empty it is off.  A token that is not an option and is not
    consumed as a value is passed over.  (What an empty token does is left
    open here.) *)
Theorem parse_args_options `{W : Web3} `{R : Runtime}
    (pre post : list string) (key : string)
    (Hnext : head post <> Some EmptyString)
    (Hlast : Forall (fun t => t <> "--" +:+ key) post) :
  let a := pre ++ ("--" +:+ key) :: post in
  let m := collect a ∅ in
  m !! key
  = Some (match post with
          | next :: _ => if startsWith next "--" then "true" else next
          | [] => "true"
          end)
  /\ (flag m key = true
      <-> match post with
          | next :: _ => startsWith next "--" = true \/ next = "true"
          | [] => True
          end)
  /\ (forall l r v t,
        startsWith v "--" = false -> startsWith t "--" = false ->
        collect (l ++ v :: t :: r) ∅ = collect (l ++ v :: r) ∅)
  /\ (forall node script w,
        truthy (default EmptyString (m !! "program")) = true ->
        exists args,
          parseArgs (node :: script :: a) w = (Return args, w)
          /\ Args.list args = flag m "list"
          /\ Args.json args = flag m "json").
Proof.
  intros a m.
  assert (m !! key
          = Some (match post with
                  | next :: _ => if startsWith next "--" then "true" else next
                  | [] => "true"
                  end)) as Hm.
  { subst m a. rewrite (collect_last key pre post ∅ Hlast).
    unfold option_value. destruct post as [|next rest]; [done|].
    assert (truthy next = true) as ->.
    { unfold truthy. apply negb_true_iff, String.eqb_neq.
      intros ->. by apply Hnext. }
    cbn [andb]. by destruct (startsWith next "--"). }
  split; [exact Hm|]. split; [|split].
  - unfold flag. rewrite Hm. cbn [default from_option id].
    destruct post as [|next rest]; [done|].
    destruct (startsWith next "--"); rewrite String.eqb_eq.
    + split; [intros _; by left | done].
    + split; [intros ?; by right | by intros [|]].
  - intros l r v t Hv Ht. by apply collect_skip.
  - intros node script w Hprog. unfold parseArgs.
    change (drop 2 (node :: script :: a)) with a. cbv zeta. fold m.
    unfold bind. rewrite Hprog. cbn [ret].
    eexists. split; [reflexivity|]. done.
Qed.

Lemma parse_args_options_witness :
  head ["--json"] <> Some EmptyString
  /\ Forall (fun t => t <> "--" +:+ "list") ["--json"]
  /\ collect (["--program"; "P"] ++ ("--" +:+ "list") :: ["--json"]) ∅
       !! "list" = Some "true"
  /\ flag (collect (["--program"; "P"] ++ ("--" +:+ "list") :: ["--json"]) ∅)
       "list" = true.
Proof.
  assert (head ["--json"] <> Some EmptyString) as Hnext by discriminate.
  assert (Forall (fun t => t <> "--" +:+ "list") ["--json"]) as Hlast
    by (repeat constructor; discriminate).
  split; [exact Hnext|]. split; [exact Hlast|].
  pose proof (parse_args_options (W := Sample.web3) (R := Sample.runtime)
                ["--program"; "P"] ["--json"] "list" Hnext Hlast) as T.
  cbv zeta in T. destruct T as (T1 & T2 & _).
  split; [exact T1|]. apply T2. left. reflexivity.
Defined.

(** C10 as stated does not hold: --list followed by the token true, which
    does not start with two dashes, is consumed as the value of the option
    and the flag is on. *)
Lemma list_flag_followed_by_true :
  startsWith "true" "--" = false
  /\ collect ["--program"; "P"; "--list"; "true"] ∅ !! "list" = Some "true"
  /\ flag (collect ["--program"; "P"; "--list"; "true"] ∅) "list" = true
  /\ exists args,
       parseArgs (W := Sample.web3) (R := Sample.runtime)
         ["node"; "src/index.ts"; "--program"; "P"; "--list"; "true"]
         empty_world
       = (Return args, empty_world)
       /\ Args.list args = true.
Proof.
  split; [reflexivity|]. split; [vm_compute; reflexivity|].
  split; [vm_compute; reflexivity|].
  eexists. split; [vm_compute; reflexivity|]. reflexivity.
Qed.

End ParserClaim.

(** ** Sorting on an integer key *)

Section SortFacts.
Context {A : Type} (key : A -> Z).

Lemma insert_by_perm (x : A) (l : list A) : insert_by key x l ≡ₚ x :: l.
Proof.
  induction l as [|y l IH]; cbn [insert_by]; [done|].
  destruct (key x <=? key y)%Z; [done|].
  rewrite IH. apply Permutation_swap.
Qed.

Lemma sort_by_perm (l : list A) : sort_by key l ≡ₚ l.
Proof.
  induction l as [|x l IH]; cbn [sort_by]; [done|].
  by rewrite insert_by_perm, IH.
Qed.

Lemma insert_by_sorted (x : A) (l : list A) :
  StronglySorted (key_le key) l -> StronglySorted (key_le key) (insert_by key x l).
Proof.
  induction 1 as [|y l Hs IH Hy]; cbn [insert_by].
  - repeat constructor.
  - destruct (Z.leb_spec (key x) (key y)).
    + constructor; [by constructor|]. constructor; [done|].
      eapply Forall_impl; [exact Hy|]. unfold key_le. cbn. lia.
    + constructor; [done|]. rewrite insert_by_perm.
      constructor; [unfold key_le; lia | done].
Qed.

Lemma sort_by_sorted (l : list A) : StronglySorted (key_le key) (sort_by key l).
Proof.
  induction l as [|x l IH]; cbn [sort_by]; [constructor|].
  by apply insert_by_sorted.
Qed.

Lemma insert_by_lowest (lo : Z) (x : A) (l : list A) :
  key x = lo -> Forall (fun y => (lo <= key y)%Z) l ->
  insert_by key x l = x :: l.
Proof.
  intros Hx Hl. destruct l as [|y l]; [done|]. cbn [insert_by].
  apply Forall_cons in Hl as [Hy _].
  destruct (Z.leb_spec (key x) (key y)); [done | lia].
Qed.

Lemma insert_by_after (lo : Z) (x : A) (l1 l2 : list A) :
  (lo < key x)%Z -> Forall (fun y => key y = lo) l1 ->
  insert_by key x (l1 ++ l2) = l1 ++ insert_by key x l2.
Proof.
  intros Hx. induction 1 as [|y l1 Hy Hl IH]; [done|].
  cbn [app insert_by].
  destruct (Z.leb_spec (key x) (key y)); [lia|]. by rewrite IH.
Qed.

(** With a lowest key [lo]: the entries carrying [lo] come first, in the
    order they had, then the others by ascending key. *)
Lemma sort_by_lowest_first (lo : Z) (l : list A) :
  Forall (fun y => (lo <= key y)%Z) l ->
  sort_by key l
  = List.filter (fun y => (key y =? lo)%Z) l
    ++ sort_by key (List.filter (fun y => negb (key y =? lo)%Z) l).
Proof.
  induction 1 as [|x l Hx Hl IH]; [done|].
  cbn [sort_by List.filter]. rewrite IH.
  destruct (Z.eqb_spec (key x) lo) as [E|E]; cbn [negb app sort_by].
  - apply (insert_by_lowest lo); [done|].
    apply Forall_app. split.
    + apply Forall_forall. intros y Hy%list_elem_of_In%filter_In.
      destruct Hy as [_ Hy%Z.eqb_eq]. lia.
    + apply Forall_forall. intros y Hy. rewrite sort_by_perm in Hy.
      apply list_elem_of_In, filter_In in Hy as [Hy _].
      rewrite Forall_forall in Hl. apply Hl, list_elem_of_In, Hy.
  - apply (insert_by_after lo); [lia|].
    apply Forall_forall. intros y Hy%list_elem_of_In%filter_In.
    by destruct Hy as [_ Hy%Z.eqb_eq].
Qed.

End SortFacts.

(** ** The enumerating script *)

Section EnumerateFacts.
Context `{W : Web3} `{C : !Connection} (PROGRAM_ID : PublicKey).
Import Enumerate.

Lemma candidate_eids_bounds :
  Forall (fun eid => (-1 < eid)%Z) CANDIDATE_EIDS.
Proof. repeat constructor. Qed.

Lemma attribute_spec (storePda : PublicKey) (r : Row.t) (eids : list Z) :
  (forall eid e, In eid eids ->
     exists p, peerPdaFor PROGRAM_ID storePda eid e = Ok p) ->
  exists hit,
    attribute PROGRAM_ID storePda r eids = Ok hit
    /\ match hit with
       | Some x =>
           exists eid e,
             x = entry_of r eid e /\ In eid eids
             /\ peerPdaFor PROGRAM_ID storePda eid e = Ok (Row.acc r)
       | None =>
           forall eid e, In eid eids ->
             peerPdaFor PROGRAM_ID storePda eid e <> Ok (Row.acc r)
       end.
Proof.
  induction eids as [|eid eids IH]; intros Hder; cbn [attribute].
  - exists None. split; [done|]. intros ? ? [].
  - destruct (Hder eid LE (or_introl eq_refl)) as [pLE HLE].
    destruct (Hder eid BE (or_introl eq_refl)) as [pBE HBE].
    rewrite HLE, HBE. cbn [rbind].
    destruct (decide (pLE = Row.acc r)) as [->|HnLE].
    { eexists. split; [reflexivity|]. exists eid, LE. by repeat split; [left|]. }
    destruct (decide (pBE = Row.acc r)) as [->|HnBE].
    { eexists. split; [reflexivity|]. exists eid, BE. by repeat split; [left|]. }
    destruct IH as (hit & -> & Hhit).
    { intros eid' e Hin. apply Hder. by right. }
    exists hit. split; [done|]. destruct hit as [x|].
    + destruct Hhit as (eid' & e & -> & Hin & Hp).
      exists eid', e. by repeat split; [right|].
    + intros eid' e [<-|Hin]; [|by apply Hhit].
      destruct e; congruence.
Qed.

Lemma resolve_spec (storePda : PublicKey) (rows : list Row.t)
    (acc0 : list Resolved.t) :
  (forall eid e, In eid CANDIDATE_EIDS ->
     exists p, peerPdaFor PROGRAM_ID storePda eid e = Ok p) ->
  exists out,
    resolve PROGRAM_ID storePda rows acc0 = Ok (acc0 ++ out)
    /\ Forall2 (entry_for PROGRAM_ID storePda) rows out.
Proof.
  intros Hder. revert acc0.
  induction rows as [|r rows IH]; intros acc0; cbn [resolve].
  - exists []. by rewrite app_nil_r.
  - destruct (attribute_spec storePda r CANDIDATE_EIDS Hder)
      as (hit & -> & Hhit). cbn [rbind].
    destruct hit as [x|].
    + destruct (IH (acc0 ++ [x])) as (out & -> & Hout).
      exists (x :: out). rewrite <- (assoc_L (++)). split; [done|].
      constructor; [|done]. destruct Hhit as (eid & e & -> & Hin & Hp).
      repeat split. right. by split.
    + destruct (IH (acc0 ++ [entry_of r (-1) LE])) as (out & -> & Hout).
      exists (entry_of r (-1) LE :: out). rewrite <- (assoc_L (++)).
      split; [done|]. constructor; [|done]. repeat split. by left.
Qed.

Lemma resolved_eids_bounded (storePda : PublicKey) (rows : list Row.t)
    (out : list Resolved.t) :
  Forall2 (entry_for PROGRAM_ID storePda) rows out ->
  Forall (fun x => (-1 <= Resolved.eid x)%Z) out.
Proof.
  induction 1 as [|r x rows out (_ & _ & _ & Hx) _ IH]; constructor; [|done].
  destruct Hx as [(-> & _) | (Hin & _)]; [lia|].
  pose proof candidate_eids_bounds as Hb. rewrite Forall_forall in Hb.
  apply list_elem_of_In, Hb in Hin. lia.
Qed.

Lemma log_all_run (lines : list string) (w : world) :
  log_all lines w
  = (Return tt, mkWorld (calls w) (console w ++ map (pair Stdout) lines)).
Proof.
  revert w. induction lines as [|l lines IH]; intros w; cbn [log_all map].
  - unfold ret. rewrite app_nil_r. by destruct w.
  - unfold bind, console_log. rewrite IH. cbn [calls console].
    by rewrite <- (assoc_L (++)).
Qed.

End EnumerateFacts.

Section EnumerateClaims.
Context `{W : Web3} `{C : !Connection} (PROGRAM_ID : PublicKey).
Import Enumerate.

Lemma Forall2_map_left {X Y Z'} (f : X -> Y) (P : Y -> Z' -> Prop)
    (l : list X) (k : list Z') :
  Forall2 P (map f l) k -> Forall2 (fun a x => P (f a) x) l k.
Proof.
  revert k. induction l as [|a l IH]; intros k H; inversion H; subst;
    constructor; auto.
Qed.

Lemma Forall2_with_left {X Y} (P : X -> Y -> Prop) (Q : X -> Prop)
    (l : list X) (k : list Y) :
  Forall2 P l k -> Forall Q l -> Forall2 (fun a x => Q a /\ P a x) l k.
Proof.
  induction 1 as [|a x l k Hax Hlk IH]; intros HQ; [constructor|].
  apply Forall_cons in HQ as [Ha Hl]. constructor; auto.
Qed.

(** C2, as the code has it.  For every program-owned account whose buffer
    is 1654 bytes long the script makes one entry; the entry's remote
    address is the 32 bytes at the fixed offset 8 of the buffer (its last 20
    bytes as the address), read without evaluating the window predicate; and
    the account is attributed by comparing its address with the two derived
    addresses of each candidate identifier, the marker -1 standing for no
    match. *)
Theorem enumerate_reads_fixed_offset
    (accs : list (PublicKey * AccountInfo)) (storePda : PublicKey)
    (Hder : forall eid e, In eid CANDIDATE_EIDS ->
              exists p, peerPdaFor PROGRAM_ID storePda eid e = Ok p) :
  exists resolved,
    resolve PROGRAM_ID storePda (map to_row (candidates accs)) [] = Ok resolved
    /\ Forall2
         (fun a x =>
            (In a accs /\ length (data (snd a)) = 1654)
            /\ Resolved.acc x = toBase58 (fst a)
            /\ Resolved.peerEvm x
               = bytes32ToEvm (subarray (data (snd a)) 8 40)
            /\ Resolved.peerBytes32 x = hex (subarray (data (snd a)) 8 40)
            /\ attributed_to PROGRAM_ID storePda (fst a) x)
         (candidates accs) resolved
    /\ (forall a, In a accs -> length (data (snd a)) = 1654 ->
          In a (candidates accs)).
Proof.
  destruct (resolve_spec PROGRAM_ID storePda (map to_row (candidates accs))
              [] Hder) as (out & E & Hout).
  exists out. split; [exact E|]. split.
  - apply Forall2_map_left in Hout.
    apply (Forall2_with_left _
             (fun a => In a accs /\ length (data (snd a)) = 1654)
             _ _ Hout).
    apply Forall_forall. intros a Ha. unfold candidates in Ha.
    apply list_elem_of_filter in Ha as [Hlen Ha].
    split; [by apply list_elem_of_In | exact Hlen].
  - intros a Ha Hlen. apply list_elem_of_In. unfold candidates.
    apply list_elem_of_filter. split; [exact Hlen | by apply list_elem_of_In].
Qed.

(** C3, as the code has it.  The script prints one entry per 1654-byte
    account, none left out, in ascending order of the identifier; the
    entries that could not be attributed carry the marker -1 and so are
    printed first, before the attributed ones.  The list mode of index.ts
    likewise reports the rows it collected in ascending order of the
    identifier. *)
Theorem report_lists_unattributed_first
    (accs : list (PublicKey * AccountInfo)) (storePda : PublicKey)
    (w : world)
    (Hstore : deriveStorePda PROGRAM_ID = Ok storePda)
    (Haccs : getProgramAccounts PROGRAM_ID = Ok accs)
    (Hsome : candidates accs <> [])
    (Hder : forall eid e, In eid CANDIDATE_EIDS ->
              exists p, peerPdaFor PROGRAM_ID storePda eid e = Ok p) :
  exists resolved,
    resolve PROGRAM_ID storePda (map to_row (candidates accs)) [] = Ok resolved
    /\ length resolved = length (candidates accs)
    /\ main PROGRAM_ID w
       = (Return tt,
          mkWorld (calls w ++ [GetProgramAccounts PROGRAM_ID])
            (console w
             ++ map (pair Stdout)
                  (header storePda (map to_row (candidates accs))
                   ++ map entry_line (report_order resolved))))
    /\ report_order resolved ≡ₚ resolved
    /\ StronglySorted (key_le Resolved.eid) (report_order resolved)
    /\ report_order resolved
       = List.filter unattributed resolved
         ++ sort_by Resolved.eid
              (List.filter (fun x => negb (unattributed x)) resolved)
    /\ (forall args programId sp storeAi rows,
          let out := Index.list_out args programId sp storeAi rows in
          Index.ListOut.peers out ≡ₚ rows
          /\ StronglySorted (key_le Index.Row.eid) (Index.ListOut.peers out)
          /\ Index.ListOut.peersFound out = length rows).
Proof.
  destruct (resolve_spec PROGRAM_ID storePda (map to_row (candidates accs))
              [] Hder) as (out & E & Hout).
  cbn [app] in E. exists out. split; [exact E|].
  split; [by rewrite <- (Forall2_length _ _ _ Hout), length_map|].
  split; [|split; [|split; [|split]]].
  - unfold main, bind, lift, conn_getProgramAccounts.
    rewrite Hstore, Haccs. cbn [of_result].
    destruct (Nat.eqb_spec (length (candidates accs)) 0) as [Hz|_].
    { by apply nil_length_inv in Hz. }
    rewrite E. cbn [of_result]. by rewrite log_all_run.
  - apply sort_by_perm.
  - apply sort_by_sorted.
  - apply (sort_by_lowest_first Resolved.eid (-1)).
    apply (resolved_eids_bounded PROGRAM_ID storePda _ _ Hout).
  - intros args programId sp storeAi rows out'. subst out'.
    cbn [Index.list_out Index.ListOut.peers Index.ListOut.peersFound].
    split; [apply sort_by_perm|]. split; [apply sort_by_sorted | done].
Qed.

End EnumerateClaims.

Section EnumerateExamples.
Import Enumerate Sample.

Lemma sample_derivations (eid : Z) (e : Endian) :
  In eid CANDIDATE_EIDS ->
  exists p, peerPdaFor programId storePda eid e = Ok p.
Proof.
  intros Hin. unfold CANDIDATE_EIDS in Hin. cbn [In] in Hin.
  repeat (destruct Hin as [<-|Hin]; [destruct e; eexists; reflexivity|]).
  destruct Hin.
Qed.

Lemma enumerate_reads_fixed_offset_witness :
  (forall eid e, In eid CANDIDATE_EIDS ->
     exists p, peerPdaFor programId storePda eid e = Ok p)
  /\ exists resolved,
       resolve programId storePda (map to_row (candidates mixed_accounts)) []
       = Ok resolved
       /\ length resolved = 2.
Proof.
  split; [exact sample_derivations|].
  destruct (enumerate_reads_fixed_offset programId
              mixed_accounts storePda sample_derivations)
    as (resolved & E & H2 & _).
  exists resolved. split; [exact E|].
  by rewrite <- (Forall2_length _ _ _ H2).
Defined.

(** C2 as stated does not hold: in a 1654-byte record whose only padded
    address lies at offset 100, the scan of section 4.2 finds that address,
    while the script reports the 20 bytes at offset 20, a window that does
    not satisfy the predicate. *)
Lemma fixed_offset_is_not_a_scan :
  length shifted_record = 1654
  /\ extractAllEvmPeers shifted_record = [candidate_at shifted_record 100]
  /\ evm (candidate_at shifted_record 100) = "0x" +:+ to_hex ab20
  /\ looksLikeBytes32EvmAddress (window shifted_record 8) = false
  /\ resolve programId storePda
       (map to_row (candidates [(stray, account shifted_record)])) []
     = Ok [Resolved.mk (-1) LE (toBase58 stray)
             ("0x" +:+ to_hex (repeat x01 20))
             ("0x" +:+ to_hex (repeat x01 32))]
  /\ "0x" +:+ to_hex (repeat x01 20) <> "0x" +:+ to_hex ab20.
Proof.
  repeat split; try (vm_compute; reflexivity).
  intros E. vm_compute in E. discriminate.
Qed.

Lemma report_lists_unattributed_first_witness :
  deriveStorePda programId = Ok storePda
  /\ getProgramAccounts (Connection := mixed) programId = Ok mixed_accounts
  /\ candidates mixed_accounts <> []
  /\ exists resolved,
       resolve programId storePda (map to_row (candidates mixed_accounts)) []
       = Ok resolved
       /\ StronglySorted (key_le Resolved.eid) (report_order resolved).
Proof.
  assert (deriveStorePda programId = Ok storePda) as Hstore by reflexivity.
  assert (getProgramAccounts (Connection := mixed) programId
          = Ok mixed_accounts) as Haccs by reflexivity.
  assert (candidates mixed_accounts <> []) as Hsome
    by (vm_compute; discriminate).
  split; [exact Hstore|]. split; [exact Haccs|]. split; [exact Hsome|].
  destruct (report_lists_unattributed_first (C := mixed) programId
              mixed_accounts storePda empty_world Hstore Haccs Hsome
              sample_derivations)
    as (resolved & E & _ & _ & _ & Hsorted & _).
  exists resolved. split; [exact E | exact Hsorted].
Defined.

(** C3 as stated does not hold: of two 1654-byte accounts, the first
    attributed to 30109 and the second to no candidate identifier, the
    unattributed one is printed first. *)
Lemma unattributed_entry_printed_first :
  exists a u,
    resolve programId storePda (map to_row (candidates mixed_accounts)) []
    = Ok [a; u]
    /\ Resolved.eid a = 30109%Z /\ Resolved.eid u = (-1)%Z
    /\ report_order [a; u] = [u; a]
    /\ console (snd (main (C := mixed) programId empty_world))
       = map (pair Stdout)
           (header storePda (map to_row (candidates mixed_accounts))
            ++ [entry_line u; entry_line a]).
Proof.
  eexists _, _. split; [vm_compute; reflexivity|].
  repeat split; vm_compute; reflexivity.
Qed.

End EnumerateExamples.

(** * Further properties of the code *)

(** ** Seeds and hex text *)

Section EncodingFacts.
Import Decode.

Lemma byte_value_of_Z (z : Z) : byte_value (byte_of_Z z) = (z mod 256)%Z.
Proof.
  unfold byte_value, byte_of_Z.
  assert (0 <= z mod 256 < 256)%Z as Hr by (apply Z.mod_pos_bound; lia).
  destruct (Byte.of_N (Z.to_N (z mod 256))) as [b|] eqn:E.
  - apply Byte.to_of_N in E. rewrite E. lia.
  - apply Byte.of_N_None_iff in E. lia.
Qed.

Lemma u32_in_range_spec (n : Z) :
  u32_in_range n = true <-> (0 <= n < 4294967296)%Z.
Proof. unfold u32_in_range. rewrite andb_true_iff, !Z.leb_le. lia. Qed.

(** X1. The 4-byte seed of an identifier.  A number in the unsigned 32-bit
    range is written as four bytes that read back to it, least significant
    first in the little-endian seed, and the big-endian seed is the same
    bytes in reverse; any other number is rejected by both encoders. *)
Theorem u32_seed_round_trip (n : Z) :
  match u32LE n with
  | Ok bs =>
      (0 <= n < 4294967296)%Z /\ length bs = 4 /\ le_value bs = n
      /\ u32BE n = Ok (rev bs)
  | Throw _ =>
      (n < 0 \/ 4294967296 <= n)%Z /\ u32BE n = Throw "ERR_OUT_OF_RANGE"
  end.
Proof.
  unfold u32LE, u32BE. destruct (u32_in_range n) eqn:E.
  - apply u32_in_range_spec in E. split; [exact E|]. split; [reflexivity|].
    split; [|reflexivity].
    cbn [le_value]. rewrite !byte_value_of_Z, !Z.shiftr_div_pow2 by lia.
    change (2 ^ 8)%Z with 256%Z. change (2 ^ 16)%Z with 65536%Z.
    change (2 ^ 24)%Z with 16777216%Z.
    Z.div_mod_to_equations. lia.
  - split; [|reflexivity].
    destruct (Z.lt_ge_cases n 0) as [?|?]; [by left|].
    destruct (Z.lt_ge_cases n 4294967296) as [?|?]; [|by right].
    assert (u32_in_range n = true) by (apply u32_in_range_spec; lia).
    congruence.
Qed.

Lemma to_hex_app (u v : list byte) : to_hex (u ++ v) = to_hex u +:+ to_hex v.
Proof.
  induction u as [|b u IH]; [reflexivity|].
  cbn [app to_hex]. rewrite IH.
  destruct (byte_hex_shape b) as (c1 & c2 & -> & _). reflexivity.
Qed.

Lemma to_hex_length (u : list byte) :
  String.length (to_hex u) = 2 * length u.
Proof.
  induction u as [|b u IH]; [reflexivity|].
  cbn [to_hex length].
  destruct (byte_hex_shape b) as (c1 & c2 & -> & _).
  change (String.length (String c1 (String c2 EmptyString) +:+ to_hex u))
    with (S (S (String.length (to_hex u)))).
  rewrite IH. lia.
Qed.

(** X2. The hex text of a buffer: two digits per byte after the prefix, and
    different buffers never print the same. *)
Theorem hex_text_faithful (u v : list byte) :
  String.length (hex u) = 2 + 2 * length u
  /\ (hex u = hex v <-> u = v).
Proof.
  split.
  - unfold hex.
    change (String.length ("0x" +:+ to_hex u))
      with (S (S (String.length (to_hex u)))).
    rewrite to_hex_length. lia.
  - split; [|by intros ->]. unfold hex. intros [= H]. by apply to_hex_inj.
Qed.

(** X3. The two columns printed for a peer: the bytes32 text is the prefix,
    the 24 digits of the first 12 bytes, and then the digits of the address
    text; the address text of a slot of 32 bytes has 42 characters. *)
Theorem evm_text_is_tail_of_bytes32 (b32 : list byte) :
  hex b32
  = "0x" +:+ to_hex (take 12 b32) +:+ Index.slice_from 2 (bytes32ToEvm b32)
  /\ String.length (bytes32ToEvm b32) = 2 + 2 * (length b32 - 12).
Proof.
  split.
  - unfold hex, bytes32ToEvm, subarray_from.
    change (Index.slice_from 2 ("0x" +:+ to_hex (drop 12 b32)))
      with (to_hex (drop 12 b32)).
    by rewrite <- to_hex_app, take_drop.
  - unfold bytes32ToEvm, subarray_from.
    change (String.length ("0x" +:+ to_hex (drop 12 b32)))
      with (S (S (String.length (to_hex (drop 12 b32))))).
    rewrite to_hex_length, length_drop. lia.
Qed.

End EncodingFacts.

(** ** What the extractor reports *)

Section CandidateFacts.
Import Decode.

Lemma every_zero_zeros (l : list byte) :
  every_zero l = true -> l = zeros (length l).
Proof.
  induction l as [|b l IH]; [done|]. cbn [every_zero forallb length].
  intros [Hb Hl]%andb_true_iff. unfold zeros. cbn [repeat].
  f_equal; [|by apply IH]. by apply Byte.byte_dec_bl in Hb.
Qed.

(** A slice that satisfies the predicate of index.ts: twelve zero bytes,
    then twenty bytes that are not all zero. *)
Lemma window_matches_shape (s : list byte) :
  length s = 32 -> window_matches s = true ->
  take 12 s = zeros 12 /\ drop 12 s <> zeros 20.
Proof.
  intros Hlen [Hh Ht]%andb_true_iff. unfold subarray, subarray_from in *.
  rewrite drop_0 in Hh. cbn [Nat.sub] in Hh. split.
  - apply every_zero_zeros in Hh. rewrite Hh, length_take, Hlen. reflexivity.
  - intros E. rewrite E in Ht. discriminate.
Qed.

Lemma hit_window_matches (data : list byte) (o : nat) :
  o + 32 <= length data -> hit data o = window_matches (window data o).
Proof.
  intros H. apply looksLike_window_matches, window_length, H.
Qed.

Lemma matched_window_text (s : list byte) :
  length s = 32 -> window_matches s = true ->
  hex s = PADDING +:+ Index.slice_from 2 (bytes32ToEvm s)
  /\ bytes32ToEvm s <> ZERO_EVM
  /\ String.length (bytes32ToEvm s) = 42.
Proof.
  intros Hlen Hm. destruct (window_matches_shape s Hlen Hm) as [Hh Ht].
  split; [|split].
  - unfold hex. rewrite <- (take_drop 12 s) at 1. rewrite to_hex_app, Hh.
    reflexivity.
  - unfold ZERO_EVM. intros E. apply Ht.
    apply (bytes32ToEvm_inj s (zeros 32)) in E. exact E.
  - unfold bytes32ToEvm, subarray_from.
    change (String.length ("0x" +:+ to_hex (drop 12 s)))
      with (S (S (String.length (to_hex (drop 12 s))))).
    rewrite to_hex_length, length_drop, Hlen. reflexivity.
Qed.

(** X4. Every candidate of the full enumeration lies inside the buffer and is
    a padded address that is not zero: its bytes32 text is the prefix and
    24 zero digits followed by the digits of its address text, which has 42
    characters and is not the zero address.  There are never more
    candidates than windows. *)
Theorem candidates_are_padded_addresses (data : list byte) :
  Forall (fun c =>
            off c + 32 <= length data
            /\ b32 c = PADDING +:+ Index.slice_from 2 (evm c)
            /\ evm c <> ZERO_EVM
            /\ String.length (evm c) = 42)
    (extractAllEvmPeers data)
  /\ length (extractAllEvmPeers data) <= length data - 31.
Proof.
  split.
  - apply Forall_forall. intros c Hc%list_elem_of_In%in_extractAll.
    destruct Hc as (o & -> & Hfo). cbn [off b32 evm candidate_at].
    assert (hit data o = true) as Hh.
    { unfold first_occurrence in Hfo. by apply andb_true_iff in Hfo as [? _]. }
    pose proof (hit_in_range data o Hh) as Hr. split; [exact Hr|].
    apply matched_window_text; [by apply window_length|].
    by rewrite <- hit_window_matches.
  - rewrite extractAllEvmPeers_spec, length_map.
    etransitivity; [apply List.filter_length_le|].
    unfold offsets. rewrite length_seq. lia.
Qed.

Lemma filter_none {X} (p : X -> bool) (l : list X) :
  (forall x, In x l -> p x = false) -> List.filter p l = [].
Proof.
  induction l as [|x l IH]; intros H; [done|]. cbn [List.filter].
  rewrite (H x (or_introl eq_refl)). apply IH. intros y Hy. apply H. by right.
Qed.

Lemma head_filter_seq (p : nat -> bool) (n o : nat) :
  o < n -> p o = true -> (forall o', o' < o -> p o' = false) ->
  head (List.filter p (seq 0 n)) = Some o.
Proof.
  intros Hlt Hp Hlow.
  replace n with (o + (n - o)) by lia. rewrite seq_app, List.filter_app.
  assert (List.filter p (seq 0 o) = []) as ->.
  { apply filter_none. intros x Hx%in_seq. apply Hlow. lia. }
  destruct (n - o) as [|k] eqn:E; [lia|].
  cbn [seq List.filter app Nat.add]. by rewrite Hp.
Qed.

(** X5. The two modes agree: what single-best extraction returns is the first
    candidate of the full enumeration, and it returns nothing exactly when
    the enumeration is empty. *)
Theorem single_best_is_first_of_all (data : list byte) :
  option_map hex (extractPeerBytes32 data)
  = option_map b32 (head (extractAllEvmPeers data))
  /\ option_map bytes32ToEvm (extractPeerBytes32 data)
     = option_map evm (head (extractAllEvmPeers data)).
Proof.
  pose proof (extractPeerBytes32_spec data) as S.
  rewrite extractAllEvmPeers_spec.
  destruct (extractPeerBytes32 data) as [s|].
  - destruct S as (o & Ho & -> & Hm & Hlow).
    assert (head (List.filter (first_occurrence data) (offsets data))
            = Some o) as Hhead.
    { unfold offsets. apply head_filter_seq; [lia | |].
      - unfold first_occurrence. rewrite (hit_window_matches _ _ Ho), Hm.
        cbn [andb]. apply negb_true_iff, not_true_is_false. intros Ex.
        apply existsb_exists in Ex as (o' & Ho'%in_seq & Hb).
        apply andb_true_iff in Hb as [Hh _].
        rewrite hit_window_matches, Hlow in Hh by lia. discriminate.
      - intros o' Ho'. unfold first_occurrence.
        rewrite hit_window_matches, Hlow by lia. reflexivity. }
    destruct (List.filter _ _) as [|o1 rest]; [discriminate|].
    cbn [head] in Hhead. injection Hhead as ->. done.
  - assert (List.filter (first_occurrence data) (offsets data) = []) as ->;
      [|done].
    apply filter_none. intros o Ho%offsets_spec. unfold first_occurrence.
    by rewrite hit_window_matches, S.
Qed.

End CandidateFacts.

(** ** What a lookup reports *)

Section LookupFacts.
Context `{W : Web3} `{C : !Connection}.
Import Index Decode.

Lemma derivePeerPda_shape (programId store : PublicKey) (eid : Z)
    (w w' : world) (r : Peer.t) :
  derivePeerPda programId store eid w = (Return r, w') ->
  console w' = console w
  /\ ((exists p a e, r = Peer.mk (Some p) (Some a) (Some e))
      \/ r = Peer.mk None None None).
Proof.
  intros Hrun.
  destruct (derivePeerPda_returns _ _ _ _ _ _ Hrun) as (pLE & pBE & HLE & HBE).
  rewrite (derivePeerPda_run _ _ _ _ _ _ HLE HBE) in Hrun.
  destruct (getAccountInfo pLE) as [[a|]|e]; [| |discriminate].
  - injection Hrun as <- <-. split; [done|]. left. by exists pLE, a, LE.
  - destruct (getAccountInfo pBE) as [[a|]|e]; [| |discriminate];
      injection Hrun as <- <-; (split; [done|]).
    + left. by exists pBE, a, BE.
    + by right.
Qed.

Lemma extractPeerBytes32_matches (d s : list byte) :
  extractPeerBytes32 d = Some s -> length s = 32 /\ window_matches s = true.
Proof.
  intros E. pose proof (extractPeerBytes32_spec d) as S. rewrite E in S.
  destruct S as (o & Ho & -> & Hm & _). split; [by apply window_length|done].
Qed.

(** X6. The row of a lookup is all or nothing.  It carries the identifier that
    was asked for; without a record every other field is null; with a
    record the address and the byte order are set; and a remote address,
    when there is one, is never the zero address, has 42 characters, and
    comes with the bytes32 text that pads it with 24 zero digits.  The
    lookup writes nothing to the console. *)
Theorem lookup_row_invariant (programId storePda : PublicKey) (eid : Z)
    (w w' : world) (r : Row.t)
    (Hrun : readOne programId storePda eid w = (Return r, w')) :
  Row.eid r = eid
  /\ console w' = console w
  /\ (Row.exists_ r = false ->
      Row.peerPda r = None /\ Row.endian r = None
      /\ Row.bytes32 r = None /\ Row.evm r = None)
  /\ (Row.exists_ r = true ->
      is_Some (Row.peerPda r) /\ is_Some (Row.endian r))
  /\ match Row.evm r with
     | Some e =>
         Row.exists_ r = true /\ e <> ZERO_EVM /\ String.length e = 42
         /\ Row.bytes32 r = Some (PADDING +:+ slice_from 2 e)
     | None => Row.bytes32 r = None
     end.
Proof.
  unfold readOne, bind in Hrun.
  destruct (derivePeerPda programId storePda eid w) as [[peer| |] w1] eqn:E;
    [|discriminate|discriminate].
  destruct (derivePeerPda_shape _ _ _ _ _ _ E) as [Hc Hshape].
  cbn [ret] in Hrun. injection Hrun as <- <-.
  cbn [Row.eid Row.exists_ Row.peerPda Row.endian Row.bytes32 Row.evm].
  split; [done|]. split; [exact Hc|].
  destruct Hshape as [(p & a & e & ->) | ->];
    cbn [Peer.ai Peer.pda Peer.endian option_map].
  - split; [intros H; by apply bool_decide_eq_false in H as []|].
    split; [by intros _|].
    destruct (extractPeerBytes32 (data a)) as [s|] eqn:Es;
      cbn [option_map]; [|done].
    destruct (extractPeerBytes32_matches _ _ Es) as [Hlen Hm].
    destruct (matched_window_text s Hlen Hm) as (H1 & H2 & H3).
    split; [by apply bool_decide_eq_true|]. by rewrite H1.
  - split; [done|]. split; [|done].
    intros H. apply bool_decide_eq_true in H. by destruct H.
Qed.

(** X7. An identifier outside the unsigned 32-bit range: the lookup throws
    before any RPC call is made, and the batch loop passes it over without
    a call and without a row. *)
Theorem out_of_range_identifier (programId storePda : PublicKey) (eid : Z)
    (rows : list Row.t) (w : world)
    (Hout : (eid < 0 \/ 4294967296 <= eid)%Z) :
  readOne programId storePda eid w = (Raise "ERR_OUT_OF_RANGE", w)
  /\ collect_rows programId storePda [eid] rows w = (Return rows, w).
Proof.
  assert (u32_in_range eid = false) as Hr.
  { apply not_true_is_false. intros H%u32_in_range_spec. lia. }
  assert (readOne programId storePda eid w = (Raise "ERR_OUT_OF_RANGE", w))
    as Hread.
  { unfold readOne, derivePeerPda, bind, lift, peer_address, u32LE.
    by rewrite Hr. }
  split; [exact Hread|].
  cbn [collect_rows]. unfold bind at 1. unfold try_catch, bind at 1.
  by rewrite Hread.
Qed.

(** The batch loop never fails and never writes to the console. *)
Lemma collect_rows_returns (programId storePda : PublicKey) (eids : list Z)
    (rows : list Row.t) (w : world) :
  exists rows' w',
    collect_rows programId storePda eids rows w = (Return rows', w')
    /\ console w' = console w.
Proof.
  revert rows w. induction eids as [|eid eids IH]; intros rows w.
  - by exists rows, w.
  - cbn [collect_rows]. unfold bind at 1. unfold try_catch, bind at 1.
    destruct (readOne_world programId storePda eid w) as [_ Hc].
    pose proof (readOne_no_exit programId storePda eid w) as Hne.
    destruct (readOne programId storePda eid w) as [[r|e|c] w1];
      cbn [fst snd ret] in *; [| |by destruct (Hne c)].
    + destruct (IH (if Row.exists_ r then rows ++ [r] else rows) w1)
        as (rows' & w' & E & Hw).
      exists rows', w'. split; [exact E | congruence].
    + destruct (IH rows w1) as (rows' & w' & E & Hw).
      exists rows', w'. split; [exact E | congruence].
Qed.

End LookupFacts.

(** ** How a run ends *)

Section RunFacts.
Context `{W : Web3} `{C : !Connection} `{R : Runtime}.
Variable stringify_single : Index.SingleOut.t -> string.
Variable stringify_list : Index.ListOut.t -> string.
Import Index.

Lemma print_list_run (json : bool) (out : ListOut.t) (w : world) :
  exists lines,
    print_list stringify_list json out w
    = (Return tt, mkWorld (calls w) (console w ++ map (pair Stdout) lines))
    /\ (json = false -> length lines = 4 + length (ListOut.peers out)).
Proof.
  unfold print_list. destruct json.
  - exists [stringify_list out]. split; [reflexivity | discriminate].
  - eexists. rewrite log_all_run. split; [reflexivity|].
    intros _. cbn [app length]. by rewrite length_map.
Qed.

Lemma sort_by_length {X} (key : X -> Z) (l : list X) :
  length (sort_by key l) = length l.
Proof. by rewrite (Permutation_length (sort_by_perm key l)). Qed.

(** X8. List mode cannot be brought down by the peer lookups.  Once the
    arguments are read, the program key is built and the store record is
    derived and fetched, the run ends normally whatever the lookups of the
    identifiers do, having written to standard output only: in text form
    four lines and one line per row found. *)
Theorem list_mode_survives_peer_failures (argv : list string) (w : world)
    (args : Args.t) (programId storePda : PublicKey)
    (storeAi : option AccountInfo)
    (Hparse : parseArgs argv w = (Return args, w))
    (Hlist : Args.list args = true)
    (Hkey : PublicKey_new (Args.program args) = Ok programId)
    (Hstore : deriveStorePda programId = Ok storePda)
    (Hfetch : getAccountInfo storePda = Ok storeAi) :
  exists rows w1 lines,
    collect_rows programId storePda (list_eids args) []
      (logged w [GetAccountInfo storePda])
    = (Return rows, w1)
    /\ run stringify_single stringify_list argv w
       = (Return tt,
          mkWorld (calls w1) (console w ++ map (pair Stdout) lines))
    /\ (Args.json args = false -> length lines = 4 + length rows).
Proof.
  destruct (collect_rows_returns programId storePda (list_eids args) []
              (logged w [GetAccountInfo storePda]))
    as (rows & w1 & Hrows & Hc).
  destruct (print_list_run (Args.json args)
              (list_out args programId storePda storeAi rows) w1)
    as (lines & Hprint & Hlen).
  exists rows, w1, lines. split; [exact Hrows|]. split.
  - unfold run, try_catch, main. unfold bind at 1. rewrite Hparse.
    unfold bind at 1. unfold lift at 1. rewrite Hkey. cbn [of_result].
    unfold bind at 1. unfold lift at 1. rewrite Hstore. cbn [of_result].
    unfold bind at 1. unfold conn_getAccountInfo at 1. rewrite Hfetch.
    cbn [of_result]. rewrite Hlist. cbn [negb].
    unfold bind at 1. fold (logged w [GetAccountInfo storePda]).
    rewrite Hrows, Hprint. cbn [logged console] in Hc. by rewrite Hc.
  - intros Hj. rewrite (Hlen Hj).
    cbn [list_out ListOut.peers]. by rewrite sort_by_length.
Qed.

(** X9. Targeted mode has no such protection: when the fetch of the first
    peer address throws, the run prints the error on standard error and
    exits with code 1, without trying the second address. *)
Theorem targeted_mode_fetch_failure_is_fatal (argv : list string) (w : world)
    (args : Args.t) (programId storePda pLE pBE : PublicKey)
    (storeAi : option AccountInfo) (e : string)
    (Hparse : parseArgs argv w = (Return args, w))
    (Hlist : Args.list args = false)
    (Hkey : PublicKey_new (Args.program args) = Ok programId)
    (Hstore : deriveStorePda programId = Ok storePda)
    (Hfetch : getAccountInfo storePda = Ok storeAi)
    (HLE : peerPdaFor programId storePda (default 30109%Z (Args.eid args)) LE
           = Ok pLE)
    (HBE : peerPdaFor programId storePda (default 30109%Z (Args.eid args)) BE
           = Ok pBE)
    (Hthrow : getAccountInfo pLE = Throw e) :
  run stringify_single stringify_list argv w
  = (Exit 1,
     mkWorld (calls w ++ [GetAccountInfo storePda; GetAccountInfo pLE])
       (console w ++ [(Stderr, e)])).
Proof.
  unfold run, try_catch, main. unfold bind at 1. rewrite Hparse.
  unfold bind at 1. unfold lift at 1. rewrite Hkey. cbn [of_result].
  unfold bind at 1. unfold lift at 1. rewrite Hstore. cbn [of_result].
  unfold bind at 1. unfold conn_getAccountInfo at 1. rewrite Hfetch.
  cbn [of_result]. rewrite Hlist. cbn [negb].
  unfold bind at 1. unfold readOne. unfold bind at 1.
  rewrite (derivePeerPda_run _ _ _ _ _ _ HLE HBE), Hthrow.
  unfold bind, console_error, process_exit, logged. cbn [calls console].
  by rewrite <- (assoc_L (++)).
Qed.

(** X10. A program identifier that is not a valid key ends the run with exit
    code 1 and the error on standard error, before any RPC call. *)
Theorem malformed_program_id_is_fatal (argv : list string) (w : world)
    (args : Args.t) (e : string)
    (Hparse : parseArgs argv w = (Return args, w))
    (Hkey : PublicKey_new (Args.program args) = Throw e) :
  run stringify_single stringify_list argv w
  = (Exit 1, mkWorld (calls w) (console w ++ [(Stderr, e)])).
Proof.
  unfold run, try_catch, main. unfold bind at 1. rewrite Hparse.
  unfold bind at 1. unfold lift at 1. rewrite Hkey. cbn [of_result].
  reflexivity.
Qed.

End RunFacts.

(** ** What the parser keeps *)

Section ParserExtras.
Context `{W : Web3} `{R : Runtime}.
Import Index.

Lemma option_value_shape (post : list string) :
  truthy (option_value post) = true
  /\ startsWith (option_value post) "--" = false.
Proof.
  unfold option_value. destruct post as [|next rest]; [done|].
  destruct (truthy next) eqn:Ht; cbn [andb]; [|done].
  destruct (startsWith next "--") eqn:Hs; cbn [negb]; done.
Qed.

Lemma collect_absent (key : string) (a : list string) :
  ~ In ("--" +:+ key) a -> collect a ∅ !! key = None.
Proof.
  intros Hno. rewrite collect_other; [apply lookup_empty|].
  apply Forall_forall. intros t Ht%list_elem_of_In ->. by apply Hno.
Qed.

Lemma collect_present (key : string) (a : list string) :
  In ("--" +:+ key) a ->
  exists post, collect a ∅ !! key = Some (option_value post).
Proof.
  intros Hin%list_elem_of_In.
  apply list_elem_of_split_r in Hin as (pre & post & -> & Hno).
  exists post. apply collect_last. apply Forall_forall.
  intros t Ht ->. by apply Hno.
Qed.

(** X11. The map the parser collects has an entry for a key exactly when the
    arguments contain the option of that key, and no entry is ever empty or
    starts with two dashes. *)
Theorem collected_options (a : list string) (key : string) :
  (collect a ∅ !! key = None <-> ~ In ("--" +:+ key) a)
  /\ match collect a ∅ !! key with
     | Some v => v <> EmptyString /\ startsWith v "--" = false
     | None => True
     end.
Proof.
  destruct (In_dec string_dec ("--" +:+ key) a) as [Hin|Hno].
  - destruct (collect_present key a Hin) as (post & ->).
    destruct (option_value_shape post) as [Ht Hs].
    split; [split; [discriminate | by intros []]|].
    split; [|exact Hs]. intros E. rewrite E in Ht. discriminate.
  - rewrite (collect_absent key a Hno). done.
Qed.

(** X12. Without the program option the parser prints the usage line on
    standard error and exits with code 1; with it, even as the last token,
    the parser returns and the program text is not empty. *)
Theorem usage_exit_without_program (argv : list string) (w : world) :
  (~ In "--program" (drop 2 argv) ->
   parseArgs argv w
   = (Exit 1, mkWorld (calls w) (console w ++ [(Stderr, USAGE)])))
  /\ (In "--program" (drop 2 argv) ->
      exists args,
        parseArgs argv w = (Return args, w)
        /\ Args.program args <> EmptyString).
Proof.
  split.
  - intros Hno. unfold parseArgs. cbv zeta.
    rewrite (collect_absent "program" _ Hno). reflexivity.
  - intros Hin. unfold parseArgs. cbv zeta.
    destruct (collect_present "program" _ Hin) as (post & ->).
    destruct (option_value_shape post) as [Ht _].
    cbn [default from_option id]. unfold bind. rewrite Ht. cbn [ret].
    eexists. split; [reflexivity|]. cbn [Args.program].
    intros E. rewrite E in Ht. discriminate.
Qed.

(** X13. Options that do not occur take their defaults: the main-net endpoint,
    no identifier, no identifier list, and both flags off. *)
Theorem absent_options_take_defaults (argv : list string) (w w' : world)
    (args : Args.t)
    (Hparse : parseArgs argv w = (Return args, w')) :
  w' = w
  /\ (~ In "--rpc" (drop 2 argv) -> Args.rpc args = DEFAULT_RPC)
  /\ (~ In "--eid" (drop 2 argv) -> Args.eid args = None)
  /\ (~ In "--eidlist" (drop 2 argv) -> Args.eidlist args = None)
  /\ (~ In "--list" (drop 2 argv) -> Args.list args = false)
  /\ (~ In "--json" (drop 2 argv) -> Args.json args = false).
Proof.
  unfold parseArgs in Hparse. cbv zeta in Hparse. unfold bind in Hparse.
  destruct (truthy (default EmptyString (collect (drop 2 argv) ∅ !! "program")));
    [|discriminate].
  cbn [ret] in Hparse. injection Hparse as <- <-.
  cbn [Args.rpc Args.eid Args.eidlist Args.list Args.json]. unfold flag.
  split; [done|].
  repeat split; intros Hno;
    match goal with
    | H : ~ In (String _ (String _ ?k)) _ |- _ =>
        rewrite (collect_absent k _ H)
    end; reflexivity.
Qed.

End ParserExtras.

(** ** More on the enumerating script *)

Section EnumerateExtras.
Context `{W : Web3} `{C : !Connection} (PROGRAM_ID : PublicKey).
Import Enumerate.

(** X14. Attribution takes the first match: the entry names the earliest
    candidate identifier, in the order of the list, one of whose addresses
    is the account's; no earlier identifier derives the account in either
    byte order, and big-endian is named only when the little-endian address
    of that identifier is not the account's. *)
Theorem attribution_takes_first_match (storePda : PublicKey) (r : Row.t)
    (eids : list Z) (x : Resolved.t)
    (Hres : attribute PROGRAM_ID storePda r eids = Ok (Some x)) :
  exists pre eid post e,
    eids = pre ++ eid :: post
    /\ x = entry_of r eid e
    /\ peerPdaFor PROGRAM_ID storePda eid e = Ok (Row.acc r)
    /\ (forall eid' e', In eid' pre ->
          peerPdaFor PROGRAM_ID storePda eid' e' <> Ok (Row.acc r))
    /\ (e = BE -> peerPdaFor PROGRAM_ID storePda eid LE <> Ok (Row.acc r)).
Proof.
  revert Hres. induction eids as [|eid eids IH]; cbn [attribute];
    [discriminate|].
  destruct (peerPdaFor PROGRAM_ID storePda eid LE) as [pLE|e1] eqn:HLE;
    cbn [rbind]; [|discriminate].
  destruct (peerPdaFor PROGRAM_ID storePda eid BE) as [pBE|e2] eqn:HBE;
    cbn [rbind]; [|discriminate].
  destruct (decide (pLE = Row.acc r)) as [->|HnLE].
  { intros [= <-]. exists [], eid, eids, LE.
    repeat split; [done | by intros ? ? [] | discriminate]. }
  destruct (decide (pBE = Row.acc r)) as [->|HnBE].
  { intros [= <-]. exists [], eid, eids, BE.
    repeat split; [done | by intros ? ? [] | intros _; congruence]. }
  intros Hres.
  destruct (IH Hres) as (pre & eid0 & post & e & -> & -> & Hp & Hpre & Hbe).
  exists (eid :: pre), eid0, post, e. repeat split; [done | | done].
  intros eid' e' [<-|Hin]; [destruct e'; congruence | by apply Hpre].
Qed.

(** X15. With no account of the tracked length, an empty program included, the
    script prints one line saying so and stops: no entry, no header. *)
Theorem no_record_of_tracked_length
    (accs : list (PublicKey * AccountInfo)) (storePda : PublicKey)
    (w : world)
    (Hstore : deriveStorePda PROGRAM_ID = Ok storePda)
    (Haccs : getProgramAccounts PROGRAM_ID = Ok accs)
    (Hnone : Forall (fun a => length (data (snd a)) <> 1654) accs) :
  main PROGRAM_ID w
  = (Return tt,
     mkWorld (calls w ++ [GetProgramAccounts PROGRAM_ID])
       (console w
        ++ [(Stdout,
             "No 1654-byte accounts found; program may not be the expected OFT or layout differs.")])).
Proof.
  assert (candidates accs = []) as Hc.
  { unfold candidates. clear Haccs.
    induction Hnone as [|a accs Ha Hn IH]; [done|].
    rewrite filter_cons. destruct (decide _) as [E|_]; [|exact IH].
    by destruct Ha. }
  unfold main, bind, lift, conn_getProgramAccounts.
  rewrite Hstore, Haccs. cbn [of_result]. rewrite Hc. reflexivity.
Qed.

(** X16. The script is all or nothing: when a derivation for the first
    candidate identifier fails while there is a record to attribute, nothing
    is written to standard output (no header, no entry); the started script
    prints the text of the error on standard error and exits with code 1. *)
Theorem derivation_failure_is_all_or_nothing
    (accs : list (PublicKey * AccountInfo)) (storePda : PublicKey)
    (w : world) (e : string) (endian : Endian)
    (error_text : string -> string)
    (Hstore : deriveStorePda PROGRAM_ID = Ok storePda)
    (Haccs : getProgramAccounts PROGRAM_ID = Ok accs)
    (Hsome : candidates accs <> [])
    (HLE : endian = BE ->
           exists p, peerPdaFor PROGRAM_ID storePda 30101 LE = Ok p)
    (Hfail : peerPdaFor PROGRAM_ID storePda 30101 endian = Throw e) :
  main PROGRAM_ID w
  = (Raise e, mkWorld (calls w ++ [GetProgramAccounts PROGRAM_ID]) (console w))
  /\ run PROGRAM_ID error_text w
     = (Exit 1,
        mkWorld (calls w ++ [GetProgramAccounts PROGRAM_ID])
          (console w ++ [(Stderr, error_text e)])).
Proof.
  assert (main PROGRAM_ID w
          = (Raise e,
             mkWorld (calls w ++ [GetProgramAccounts PROGRAM_ID]) (console w)))
    as Hmain.
  { unfold main, bind, lift, conn_getProgramAccounts.
    rewrite Hstore, Haccs. cbn [of_result].
    destruct (Nat.eqb_spec (length (candidates accs)) 0) as [Hz|_].
    { by apply nil_length_inv in Hz. }
    destruct (candidates accs) as [|a rest]; [done|].
    cbn [map resolve]. unfold CANDIDATE_EIDS. cbn [attribute].
    destruct endian.
    - rewrite Hfail. reflexivity.
    - destruct (HLE eq_refl) as [p ->]. cbn [rbind]. rewrite Hfail.
      reflexivity. }
  split; [exact Hmain|].
  unfold run, try_catch. rewrite Hmain. reflexivity.
Qed.

End EnumerateExtras.

(** ** The scanning script *)

Section GroupFacts.
Context {X : Type}.
Import Scanner.

Lemma lookup_push (k k' : string) (a : X) (g : list (string * list X)) :
  lookup_group k' (push_group k a g)
  = if String.eqb k k'
    then Some (default [] (lookup_group k g) ++ [a])
    else lookup_group k' g.
Proof.
  unfold lookup_group.
  induction g as [|[k0 l0] g IH]; cbn [push_group find fst].
  - destruct (String.eqb_spec k k'); reflexivity.
  - destruct (String.eqb_spec k0 k) as [->|Hk0]; cbn [find fst].
    + rewrite ?String.eqb_refl. destruct (String.eqb_spec k k'); reflexivity.
    + destruct (String.eqb_spec k0 k') as [->|Hk0'].
      * destruct (String.eqb_spec k k') as [->|_]; [done | reflexivity].
      * exact IH.
Qed.

Lemma keys_push (k k' : string) (a : X) (g : list (string * list X)) :
  In k' (map fst (push_group k a g)) <-> k' = k \/ In k' (map fst g).
Proof.
  induction g as [|[k0 l0] g IH]; cbn [push_group map fst In].
  - intuition congruence.
  - destruct (String.eqb_spec k0 k) as [->|Hk0]; cbn [map fst In];
      [intuition congruence|]. rewrite IH. intuition congruence.
Qed.

Lemma NoDup_keys_push (k : string) (a : X) (g : list (string * list X)) :
  NoDup (map fst g) -> NoDup (map fst (push_group k a g)).
Proof.
  induction g as [|[k0 l0] g IH]; cbn [push_group map fst]; intros Hnd.
  - apply NoDup_singleton.
  - apply NoDup_cons in Hnd as [Hk0 Hnd].
    destruct (String.eqb_spec k0 k) as [->|Hne]; cbn [map fst];
      apply NoDup_cons; split; auto.
    rewrite list_elem_of_In, keys_push, <- list_elem_of_In.
    intros [E|E]; [congruence | done].
Qed.

Lemma in_lookup_group (k : string) (l : list X) (g : list (string * list X)) :
  NoDup (map fst g) -> In (k, l) g <-> lookup_group k g = Some l.
Proof.
  unfold lookup_group.
  induction g as [|[k0 l0] g IH]; cbn [map fst find In]; intros Hnd.
  - split; [intros [] | discriminate].
  - apply NoDup_cons in Hnd as [Hk0 Hnd].
    destruct (String.eqb_spec k0 k) as [->|Hne]; cbn [option_map snd].
    + split; [|intros [= <-]; by left]. intros [[= <-]|Hin]; [done|].
      destruct Hk0. apply list_elem_of_In, in_map_iff. by exists (k, l).
    + rewrite <- (IH Hnd). split; [intros [[= E _]|Hin]; [done|done] | by right].
Qed.

End GroupFacts.

Section ScannerFacts.
Context `{W : Web3} `{C : !Connection} (PROGRAM_ID : PublicKey).
Import Scanner.

Lemma group_accounts_snoc (accs : list (PublicKey * AccountInfo))
    (a : PublicKey * AccountInfo) :
  group_accounts (accs ++ [a])
  = push_group (label a) a (group_accounts accs).
Proof. unfold group_accounts. by rewrite fold_left_app. Qed.

Lemma group_accounts_lookup (accs : list (PublicKey * AccountInfo)) :
  NoDup (map fst (group_accounts accs))
  /\ forall k,
       lookup_group k (group_accounts accs)
       = match List.filter (fun a => String.eqb (label a) k) accs with
         | [] => None
         | l => Some l
         end.
Proof.
  induction accs as [|a accs [IHn IHl]] using rev_ind.
  - split; [constructor | done].
  - rewrite group_accounts_snoc. split; [by apply NoDup_keys_push|].
    intros k. rewrite lookup_push, List.filter_app, !IHl.
    cbn [List.filter]. destruct (String.eqb_spec (label a) k) as [->|Hne].
    + rewrite ?String.eqb_refl. by destruct (List.filter _ accs).
    + by rewrite app_nil_r.
Qed.

(** X17. Grouping by discriminator puts every account in exactly one group:
    the keys are pairwise different, and a group is exactly the accounts
    carrying its label, in the order they were listed (so no group is
    empty). *)
Theorem groups_partition_accounts (accs : list (PublicKey * AccountInfo)) :
  NoDup (map fst (group_accounts accs))
  /\ forall k l,
       In (k, l) (group_accounts accs)
       <-> l <> []
           /\ l = List.filter (fun a => String.eqb (label a) k) accs.
Proof.
  destruct (group_accounts_lookup accs) as [Hnd Hl].
  split; [exact Hnd|]. intros k l.
  rewrite (in_lookup_group k l _ Hnd), Hl.
  destruct (List.filter _ accs) as [|a f].
  - split; [discriminate | intros [Hne ->]; by destruct Hne].
  - split; [intros [= <-]; by split | by intros [_ ->]].
Qed.

(** X18. The label of a group.  A buffer shorter than 8 bytes has no
    discriminator; otherwise the label is 18 characters of hex text, never
    the text used for accounts without one, and two buffers get the same
    label exactly when their first 8 bytes agree. *)
Theorem discriminator_label (d e : list byte) :
  (discriminatorOf (Some d) = None <-> length d < 8)
  /\ match discriminatorOf (Some d) with
     | Some t => String.length t = 18 /\ t <> "no-disc"
     | None => True
     end
  /\ (8 <= length d -> 8 <= length e ->
      (discriminatorOf (Some d) = discriminatorOf (Some e)
       <-> take 8 d = take 8 e)).
Proof.
  unfold discriminatorOf, subarray. rewrite !drop_0. cbn [Nat.sub].
  split; [|split].
  - destruct (Nat.ltb_spec (length d) 8); split; (done || lia).
  - destruct (Nat.ltb_spec (length d) 8); [done|]. split.
    + unfold hex.
      change (String.length ("0x" +:+ to_hex (take 8 d)))
        with (S (S (String.length (to_hex (take 8 d))))).
      rewrite to_hex_length, length_take. lia.
    + unfold hex. discriminate.
  - intros Hd He.
    destruct (Nat.ltb_spec (length d) 8); [lia|].
    destruct (Nat.ltb_spec (length e) 8); [lia|].
    split; [|by intros ->]. unfold hex. intros [= Hx]. by apply to_hex_inj.
Qed.

End ScannerFacts.

Section ScannerRows.
Context `{W : Web3} `{C : !Connection} (PROGRAM_ID : PublicKey).
Import Scanner.

Lemma extractAll_nonempty (d : list byte) :
  (0 <? length (extractAllEvmPeers d))%nat = existsb (hit d) (offsets d).
Proof.
  destruct (existsb (hit d) (offsets d)) eqn:E.
  - apply existsb_exists in E as (o & _ & Ho).
    destruct (first_occurrence_below d o Ho) as (o' & _ & Hfo & _).
    assert (In (candidate_at d o') (extractAllEvmPeers d)) as Hin
      by (apply in_extractAll; by exists o').
    destruct (extractAllEvmPeers d); [destruct Hin | reflexivity].
  - rewrite extractAllEvmPeers_spec, filter_none; [reflexivity|].
    intros o Ho. unfold first_occurrence.
    assert (hit d o = false) as ->; [|done].
    apply not_true_is_false. intros Hh.
    assert (existsb (hit d) (offsets d) = true) as E'
      by (apply existsb_exists; by exists o).
    congruence.
Qed.

Lemma candidate_eta (l : list candidate) :
  map (fun p => mkCandidate (off p) (b32 p) (evm p)) l = l.
Proof. induction l as [|[? ? ?] l IH]; cbn; by rewrite ?IH. Qed.

Lemma scan_accounts_spec (accs : list (PublicKey * AccountInfo))
    (rows : list PeerRow.t) :
  scan_accounts accs rows
  = rows ++ map row_of (List.filter has_candidate accs).
Proof.
  revert rows. induction accs as [|a accs IH]; intros rows;
    cbn [scan_accounts List.filter]; [by rewrite app_nil_r|].
  cbv zeta. rewrite extractAll_nonempty. fold (has_candidate a).
  destruct (has_candidate a); rewrite IH; [|done].
  rewrite candidate_eta, <- (assoc_L (++)). reflexivity.
Qed.

(** X19. The rows of the scan are the accounts in which some window is a padded
    address, in the order listed, each with the candidates of the full
    enumeration: an account without a candidate, and so any account shorter
    than 32 bytes, is left out.  They are printed by ascending buffer
    length, none lost; and when no account has a candidate a single line
    says so. *)
Theorem scanned_rows (accs : list (PublicKey * AccountInfo)) :
  scan_accounts accs [] = map row_of (List.filter has_candidate accs)
  /\ Forall (fun r => PeerRow.peers r <> [] /\ 32 <= PeerRow.dataLen r)
       (scan_accounts accs [])
  /\ report_rows (scan_accounts accs []) ≡ₚ scan_accounts accs []
  /\ StronglySorted (key_le (fun r => Z.of_nat (PeerRow.dataLen r)))
       (report_rows (scan_accounts accs []))
  /\ (Forall (fun a => has_candidate a = false) accs ->
      peer_section (scan_accounts accs [])
      = ["No bytes32(EVM) patterns found in program-owned accounts."]).
Proof.
  rewrite scan_accounts_spec. cbn [app].
  split; [done|]. split; [|split; [|split]].
  - apply Forall_forall. intros r Hr%list_elem_of_In%in_map_iff.
    destruct Hr as (a & <- & [_ Ha]%filter_In).
    cbn [row_of PeerRow.peers PeerRow.dataLen].
    unfold has_candidate in Ha. apply existsb_exists in Ha as (o & _ & Ho).
    split.
    + pose proof (extractAll_nonempty (data (snd a))) as E.
      assert (existsb (hit (data a.2)) (offsets (data a.2)) = true) as Ex.
      { apply existsb_exists. exists o. split; [|done].
        by apply offsets_spec, hit_in_range. }
      rewrite Ex in E. intros Hnil. rewrite Hnil in E. discriminate.
    + apply hit_in_range in Ho. lia.
  - apply sort_by_perm.
  - apply sort_by_sorted.
  - intros Hnone. rewrite filter_none; [reflexivity|].
    intros a Ha. rewrite Forall_forall in Hnone.
    apply Hnone, list_elem_of_In, Ha.
Qed.

Lemma set_of_spec (xs seen : list nat) :
  NoDup seen ->
  NoDup (set_of xs seen)
  /\ forall n, In n (set_of xs seen) <-> In n xs \/ In n seen.
Proof.
  revert seen. induction xs as [|x xs IH]; intros seen Hnd; cbn [set_of In].
  - split; [done | intuition].
  - destruct (existsb (Nat.eqb x) seen) eqn:E.
    + apply existsb_exists in E as (y & Hy & ->%Nat.eqb_eq).
      destruct (IH seen Hnd) as [H1 H2]. split; [done|].
      intros n. rewrite H2. intuition congruence.
    + assert (~ In x seen) as Hx.
      { intros Hin.
        assert (existsb (Nat.eqb x) seen = true) as E'
          by (apply existsb_exists; exists x; by rewrite Nat.eqb_refl).
        congruence. }
      destruct (IH (seen ++ [x])) as [H1 H2].
      { apply NoDup_app. split; [done|]. split; [|apply NoDup_singleton].
        intros y Hy ->%list_elem_of_singleton. by apply Hx, list_elem_of_In. }
      split; [done|]. intros n. rewrite H2, in_app_iff. cbn [In].
      intuition congruence.
Qed.

Lemma ascending_distinct_strict (l : list nat) :
  StronglySorted (key_le Z.of_nat) l -> NoDup l -> StronglySorted lt l.
Proof.
  induction 1 as [|x l Hs IH Hx]; intros Hnd; constructor.
  - apply IH. by apply NoDup_cons in Hnd as [_ ?].
  - apply NoDup_cons in Hnd as [Hnin _].
    rewrite Forall_forall in Hx |- *. intros y Hy.
    specialize (Hx y Hy). unfold key_le in Hx.
    assert (x <> y) by (intros ->; by apply Hnin). lia.
Qed.

(** X20. The lengths printed for a group are the different buffer lengths of
    its accounts, each once, in strictly ascending order. *)
Theorem sizes_ascending_distinct (l : list (PublicKey * AccountInfo)) :
  StronglySorted lt (sizes_of l)
  /\ forall n, In n (sizes_of l)
               <-> exists a, In a l /\ length (data (snd a)) = n.
Proof.
  unfold sizes_of.
  destruct (set_of_spec (map (fun x => length (data (snd x))) l) []
              (NoDup_nil_2)) as [Hnd Hin].
  split.
  - apply ascending_distinct_strict; [apply sort_by_sorted|].
    by rewrite sort_by_perm.
  - intros n. rewrite <- list_elem_of_In, sort_by_perm, list_elem_of_In.
    rewrite Hin, in_map_iff. cbn [In]. split.
    + intros [(a & E & Ha)|[]]. by exists a.
    + intros (a & Ha & E). left. by exists a.
Qed.

(** X21. The scan can only fail in the fetch.  The three opening lines are
    printed before the accounts are asked for; when the fetch throws the
    script ends with that error after them, and otherwise it always runs to
    its end and prints the whole report. *)
Theorem scanner_fails_only_in_fetch (w : world) :
  main PROGRAM_ID w
  = match getProgramAccounts PROGRAM_ID with
    | Ok accs =>
        (Return tt,
         mkWorld (calls w ++ [GetProgramAccounts PROGRAM_ID])
           (console w
            ++ map (pair Stdout) (opening PROGRAM_ID ++ report accs)))
    | Throw e =>
        (Raise e,
         mkWorld (calls w ++ [GetProgramAccounts PROGRAM_ID])
           (console w ++ map (pair Stdout) (opening PROGRAM_ID)))
    end.
Proof.
  unfold main. unfold bind at 1. rewrite log_all_run.
  unfold bind at 1, conn_getProgramAccounts. cbn [calls console].
  destruct (getProgramAccounts PROGRAM_ID) as [accs|e]; cbn [of_result];
    [|reflexivity].
  unfold bind, console_log. cbn [calls console].
  rewrite !log_all_run. cbn [calls console]. unfold report, opening.
  rewrite !map_app, <- !(assoc_L (++)). reflexivity.
Qed.

End ScannerRows.

(** ** Worked instances *)

Section ExtraExamples.
Import Index Sample.
#[local] Existing Instance web3.
#[local] Existing Instance runtime.

Lemma lookup_row_invariant_witness :
  exists r w',
    readOne (C := mixed) programId storePda 30109 empty_world = (Return r, w')
    /\ Row.evm r = Some ("0x" +:+ to_hex ab20)
    /\ Row.bytes32 r
       = Some (Decode.PADDING +:+ slice_from 2 ("0x" +:+ to_hex ab20))
    /\ console w' = [].
Proof.
  eexists _, _.
  assert (readOne (C := mixed) programId storePda 30109 empty_world
          = (Return (Row.mk 30109 (Some (toBase58 peerBE)) true (Some BE)
                       (Some (hex (window (record ab20) 8)))
                       (Some ("0x" +:+ to_hex ab20))),
             logged empty_world [GetAccountInfo peerLE; GetAccountInfo peerBE]))
    as Hrun by (vm_compute; reflexivity).
  split; [exact Hrun|].
  destruct (lookup_row_invariant (C := mixed) _ _ _ _ _ _ Hrun)
    as (_ & Hc & _ & _ & Hevm).
  cbn [Row.evm] in Hevm. destruct Hevm as (_ & _ & _ & Hb).
  split; [reflexivity|]. split; [exact Hb | exact Hc].
Defined.

Lemma out_of_range_identifier_witness :
  (-5 < 0 \/ 4294967296 <= -5)%Z
  /\ readOne (C := mixed) programId storePda (-5) empty_world
     = (Raise "ERR_OUT_OF_RANGE", empty_world)
  /\ collect_rows (C := mixed) programId storePda [(-5)%Z] [] empty_world
     = (Return [], empty_world).
Proof.
  assert (-5 < 0 \/ 4294967296 <= -5)%Z as H by (left; lia).
  split; [exact H|].
  apply (out_of_range_identifier (C := mixed) programId storePda (-5) []
           empty_world H).
Defined.

Lemma list_mode_survives_peer_failures_witness :
  getAccountInfo (Connection := cli_flaky) cli_peerLE = Throw "fetch failed"
  /\ exists w' lines,
       run (C := cli_flaky) no_text no_text list_argv empty_world
       = (Return tt, mkWorld (calls w') (map (pair Stdout) lines))
       /\ 4 <= length lines.
Proof.
  split; [reflexivity|].
  assert (parseArgs list_argv empty_world
          = (Return (Args.mk DEFAULT_RPC "P" None true None false),
             empty_world)) as Hparse by reflexivity.
  destruct (list_mode_survives_peer_failures (C := cli_flaky) no_text no_text
              list_argv empty_world _ cli_program cli_store None
              Hparse eq_refl eq_refl eq_refl eq_refl)
    as (rows & w1 & lines & _ & Hrun & Hlen).
  exists w1, lines. split; [exact Hrun|].
  rewrite (Hlen eq_refl). lia.
Defined.

Lemma targeted_mode_fetch_failure_is_fatal_witness :
  getAccountInfo (Connection := cli_flaky) cli_peerLE = Throw "fetch failed"
  /\ run (C := cli_flaky) no_text no_text single_argv empty_world
     = (Exit 1,
        mkWorld [GetAccountInfo cli_store; GetAccountInfo cli_peerLE]
          [(Stderr, "fetch failed")]).
Proof.
  assert (getAccountInfo (Connection := cli_flaky) cli_peerLE
          = Throw "fetch failed") as Hthrow by reflexivity.
  split; [exact Hthrow|].
  assert (parseArgs single_argv empty_world
          = (Return (Args.mk DEFAULT_RPC "P" None false None false),
             empty_world)) as Hparse by reflexivity.
  apply (targeted_mode_fetch_failure_is_fatal (C := cli_flaky) no_text no_text
           single_argv empty_world _ cli_program cli_store cli_peerLE
           cli_peerBE None "fetch failed"
           Hparse eq_refl eq_refl eq_refl eq_refl eq_refl eq_refl Hthrow).
Defined.

Lemma malformed_program_id_is_fatal_witness :
  run (W := picky_web3) (C := picky_ledger) no_text no_text long_argv
    empty_world
  = (Exit 1, mkWorld [] [(Stderr, "Invalid public key input")]).
Proof.
  assert (parseArgs (W := picky_web3) long_argv empty_world
          = (Return (Args.mk DEFAULT_RPC
                       "PPPPPPPPPPPPPPPPPPPPPPPPPPPPPPPPPPPPPPPPPPPPPPPPPP"
                       None false None false),
             empty_world)) as Hparse by reflexivity.
  apply (malformed_program_id_is_fatal (W := picky_web3) (C := picky_ledger)
           no_text no_text long_argv empty_world _
           "Invalid public key input" Hparse eq_refl).
Defined.

Lemma absent_options_take_defaults_witness :
  exists args,
    parseArgs list_argv empty_world = (Return args, empty_world)
    /\ Args.rpc args = DEFAULT_RPC /\ Args.json args = false
    /\ Args.eid args = None.
Proof.
  eexists.
  assert (parseArgs list_argv empty_world
          = (Return (Args.mk DEFAULT_RPC "P" None true None false),
             empty_world)) as Hparse by reflexivity.
  split; [exact Hparse|].
  destruct (absent_options_take_defaults list_argv _ _ _ Hparse)
    as (_ & Hrpc & Heid & _ & _ & Hjson).
  assert (forall k, k <> "--program" -> k <> "P" -> k <> "--list" ->
            ~ In k (drop 2 list_argv)) as Hno.
  { intros k H1 H2 H3 [E|[E|[E|[]]]]; congruence. }
  split; [apply Hrpc, Hno; discriminate|].
  split; [apply Hjson, Hno; discriminate | apply Heid, Hno; discriminate].
Defined.

Lemma attribution_takes_first_match_witness :
  exists x,
    Enumerate.attribute programId storePda
      (Enumerate.to_row (peerBE, account (record ab20)))
      Enumerate.CANDIDATE_EIDS
    = Ok (Some x)
    /\ exists pre post,
         Enumerate.CANDIDATE_EIDS = pre ++ Enumerate.Resolved.eid x :: post.
Proof.
  eexists.
  assert (Enumerate.attribute programId storePda
            (Enumerate.to_row (peerBE, account (record ab20)))
            Enumerate.CANDIDATE_EIDS
          = Ok (Some (Enumerate.entry_of
                        (Enumerate.to_row (peerBE, account (record ab20)))
                        30109 BE))) as Hres by (vm_compute; reflexivity).
  split; [exact Hres|].
  destruct (attribution_takes_first_match programId storePda _ _ _ Hres)
    as (pre & eid & post & e & Hsplit & Hx & _).
  exists pre, post. rewrite Hsplit. f_equal. f_equal.
  by injection Hx as <- _.
Defined.

Lemma no_record_of_tracked_length_witness :
  Forall (fun a => length (data (snd a)) <> 1654) short_accounts
  /\ console (snd (Enumerate.main (C := short_only) programId empty_world))
     = [(Stdout,
         "No 1654-byte accounts found; program may not be the expected OFT or layout differs.")].
Proof.
  assert (Forall (fun a => length (data (snd a)) <> 1654) short_accounts)
    as Hnone.
  { repeat constructor; cbn; rewrite ?repeat_length; lia. }
  split; [exact Hnone|].
  by rewrite (no_record_of_tracked_length (C := short_only) programId
                short_accounts storePda empty_world eq_refl eq_refl Hnone).
Defined.

Lemma derivation_failure_is_all_or_nothing_witness :
  Enumerate.run (W := brittle_web3) (C := brittle_ledger) (repeat x07 32)
    (fun e => e) (@empty_world brittle_web3)
  = (Exit 1,
     @mkWorld brittle_web3 [@GetProgramAccounts brittle_web3 (repeat x07 32)]
       [(Stderr, "Unable to find a viable program address nonce")]).
Proof.
  apply (derivation_failure_is_all_or_nothing (W := brittle_web3)
           (C := brittle_ledger) (repeat x07 32) brittle_accounts
           (drop (length (repeat x07 32 ++ Buffer_from "Store") - 32)
              (repeat x07 32 ++ Buffer_from "Store"))
           (@empty_world brittle_web3)
           "Unable to find a viable program address nonce" LE (fun e => e)).
  - reflexivity.
  - reflexivity.
  - vm_compute. discriminate.
  - discriminate.
  - reflexivity.
Defined.

End ExtraExamples.
